(** * puppeteer-at-home: the proxy multiplexer, the browser supervisor and
      the inactivity reaper of [src/server.ts], embedded in Rocq.

    JavaScript strings are modelled by [string] (8-bit characters: Node
    decodes a request line as latin1, and the endpoints Chrome hands out are
    ASCII), numbers that hold [Date.now()] readings by [Z], the
    [Map<string, number>] of tab activity by [gmap string Z].  What the
    engine (Puppeteer, the [ws] sockets, the clock) answers is an input of
    the model: every event carries it. *)

From Stdlib Require Import ZArith NArith String Ascii List Lia.
From Stdlib Require Import Decimal DecimalString DecimalN.
From stdpp Require Import gmap strings list.

Local Open Scope string_scope.
Local Open Scope list_scope.

(** ** Characters and template literals *)

Module Chars.

Definition code (c : ascii) : N := N_of_ascii c.

(** [\d] of a JavaScript regular expression without the [u] flag: 0-9. *)
Definition is_digit (c : ascii) : bool :=
  ((48 <=? code c) && (code c <=? 57))%N.

Definition is_upper (c : ascii) : bool :=
  ((65 <=? code c) && (code c <=? 90))%N.

Definition is_lower (c : ascii) : bool :=
  ((97 <=? code c) && (code c <=? 122))%N.

Definition is_alnum (c : ascii) : bool :=
  is_digit c || is_upper c || is_lower c.

(** The line terminators [.] does not match; U+2028 and U+2029 have no
    8-bit character. *)
Definition is_line_terminator (c : ascii) : bool :=
  ((code c =? 10) || (code c =? 13))%N.

Definition all (p : ascii -> bool) : string -> bool :=
  fix go s := match s with
              | EmptyString => true
              | String c s' => p c && go s'
              end.

(** The longest prefix of characters in [p], and what follows it. *)
Fixpoint span (p : ascii -> bool) (s : string) : string * string :=
  match s with
  | String c s' =>
      if p c then let '(a, r) := span p s' in (String c a, r)
      else (EmptyString, s)
  | EmptyString => (EmptyString, EmptyString)
  end.

(** [r] does not go on with a character in [p]. *)
Definition stops (p : ascii -> bool) (r : string) : Prop :=
  match r with
  | String c _ => p c = false
  | EmptyString => True
  end.

(** The characters of the path segments Chrome puts in its endpoints
    ([devtools], [browser], [page], an identifier): letters, digits, the
    hyphen and the underscore. *)
Definition is_seg_char (c : ascii) : bool :=
  is_alnum c || (code c =? 45)%N || (code c =? 95)%N.

Definition is_path_char (c : ascii) : bool :=
  is_seg_char c || (code c =? 47)%N.

(** [`${v}`] for a value that may be [undefined]. *)
Definition template (v : option string) : string :=
  match v with
  | Some s => s
  | None => "undefined"
  end.

End Chars.

(** ** The path parser of the multiplexer: slash, digits, slash, rest *)

Module PathRegex.
Import Chars.

(** [(\d+)] is greedy: it takes the longest run of digits.  Giving a digit
    back never helps, the character after a shorter run is a digit and not
    the [/] the pattern wants next, so the longest run decides. *)
Definition span_digits (s : string) : string * string := span is_digit s.

(** [.*] takes everything up to the first line terminator; the pattern has
    no [$], so what follows is ignored. *)
Fixpoint dot_star (s : string) : string :=
  match s with
  | String c s' =>
      if is_line_terminator c then EmptyString else String c (dot_star s')
  | EmptyString => EmptyString
  end.

(** [path.match(re)] for the pattern of the connection handler, anchored
    at the start: a slash, the group [(\d+)], and a second group made of a
    slash and [.*].  The result holds the two groups, [None] is [null]. *)
Definition path_match (path : string) : option (string * string) :=
  match path with
  | String "/" s =>
      match span_digits s with
      | (String d ds, String "/" r) =>
          Some (String d ds, String "/" (dot_star r))
      | _ => None
      end
  | _ => None
  end.

(** The form the specification names: a slash, one or more digits, a slash
    and a remainder. *)
Definition slash_digits_slash_rest (path : string) : Prop :=
  exists ds rest,
    ds <> "" /\ all is_digit ds = true /\ path = "/" +:+ ds +:+ "/" +:+ rest.

End PathRegex.

(** ** [new URL(...)] on a WebSocket endpoint *)

Module Url.
Import Chars.

Record URL := { port : string; pathname : string }.

Definition is_c0_or_space (c : ascii) : bool := (code c <=? 32)%N.

Definition graphic (c : ascii) : bool := negb (is_c0_or_space c).

Definition is_tab_or_newline (c : ascii) : bool :=
  ((code c =? 9) || (code c =? 10) || (code c =? 13))%N.

Fixpoint trim_leading (s : string) : string :=
  match s with
  | String c s' => if is_c0_or_space c then trim_leading s' else s
  | EmptyString => EmptyString
  end.

Fixpoint trim_trailing (s : string) : string :=
  match s with
  | String c s' =>
      match trim_trailing s' with
      | EmptyString =>
          if is_c0_or_space c then EmptyString else String c EmptyString
      | t => String c t
      end
  | EmptyString => EmptyString
  end.

Fixpoint remove_tab_newline (s : string) : string :=
  match s with
  | String c s' =>
      if is_tab_or_newline c then remove_tab_newline s'
      else String c (remove_tab_newline s')
  | EmptyString => EmptyString
  end.

Fixpoint strip_prefix (p s : string) : option string :=
  match p, s with
  | EmptyString, _ => Some s
  | String a p', String b s' =>
      if Ascii.eqb a b then strip_prefix p' s' else None
  | String _ _, EmptyString => None
  end.

(** Characters of the host that the model follows: those of a domain or
    of an IPv4 address.  The host is not checked any further, the server
    never reads it. *)
Definition is_host_char (c : ascii) : bool :=
  is_alnum c || (code c =? 45)%N || (code c =? 46)%N.

(** The decimal numeral of a port number, as the URL serializer writes it. *)
Definition decimal (n : N) : string :=
  NilEmpty.string_of_uint (N.to_uint n).

(** The default port of the [ws:] scheme. *)
Definition ws_default_port : N := 80.

(** The [port] getter after the port state: the empty string for no port
    and for the scheme's default port, [None] where parsing fails (a port
    above 65535). *)
Definition port_of_digits (ds : string) : option string :=
  match ds with
  | EmptyString => Some EmptyString
  | _ =>
      match NilEmpty.uint_of_string ds with
      | Some d =>
          let n := N.of_uint d in
          if (65535 <? n)%N then None
          else if (n =? ws_default_port)%N then Some EmptyString
          else Some (decimal n)
      | None => None
      end
  end.

Definition hex_digit (n : N) : ascii :=
  if (n <? 10)%N then ascii_of_N (48 + n) else ascii_of_N (55 + n).

Definition percent_byte (n : N) : string :=
  String "%" (String (hex_digit (n / 16)) (String (hex_digit (n mod 16)) "")).

(** The path percent-encode set: C0 controls, everything above the
    tilde, the space, the double quote, and the characters
    [#], [<], [>], [?], [^], the backquote and the two braces. *)
Definition in_path_percent_encode_set (c : ascii) : bool :=
  let n := code c in
  ((n <? 32) || (126 <? n) || (n =? 32) || (n =? 34) || (n =? 35)
   || (n =? 60) || (n =? 62) || (n =? 63) || (n =? 94) || (n =? 96)
   || (n =? 123) || (n =? 125))%N.

(** UTF-8 percent-encoding of one code unit below U+0100. *)
Definition percent_encode (c : ascii) : string :=
  let n := code c in
  if in_path_percent_encode_set c then
    if (n <? 128)%N then percent_byte n
    else percent_byte (192 + n / 64) +:+ percent_byte (128 + n mod 64)
  else String c EmptyString.

Definition lower (c : ascii) : ascii :=
  if is_upper c then ascii_of_N (code c + 32) else c.

Fixpoint lowercase (s : string) : string :=
  match s with
  | String c s' => String (lower c) (lowercase s')
  | EmptyString => EmptyString
  end.

Definition is_single_dot (buffer : string) : bool :=
  let b := lowercase buffer in
  String.eqb b "." || String.eqb b "%2e".

Definition is_double_dot (buffer : string) : bool :=
  let b := lowercase buffer in
  String.eqb b ".." || String.eqb b ".%2e"
  || String.eqb b "%2e." || String.eqb b "%2e%2e".

Definition is_slash (c : ascii) : bool :=
  ((code c =? 47) || (code c =? 92))%N.

(** One segment is complete: dot segments are resolved, any other buffer
    is appended. [slash] says whether a slash ended the segment. *)
Definition end_segment (buffer : string) (slash : bool) (path : list string)
  : list string :=
  if is_double_dot buffer then
    if slash then removelast path else removelast path ++ [EmptyString]
  else if is_single_dot buffer then
    if slash then path else path ++ [EmptyString]
  else path ++ [buffer].

(** The path state of the URL parser for a special scheme; the query and
    the fragment that may follow are not part of the path. *)
Fixpoint path_state (s : string) (buffer : string) (path : list string)
  : list string :=
  match s with
  | EmptyString => end_segment buffer false path
  | String c s' =>
      if is_slash c then path_state s' EmptyString (end_segment buffer true path)
      else if ((code c =? 63) || (code c =? 35))%N
           then end_segment buffer false path
           else path_state s' (buffer +:+ percent_encode c) path
  end.

Fixpoint serialize_path (path : list string) : string :=
  match path with
  | seg :: path' => "/" +:+ seg +:+ serialize_path path'
  | [] => EmptyString
  end.

(** The path start state swallows the slash that opens the path. *)
Definition pathname_of (s : string) : string :=
  serialize_path
    (path_state (match s with
                 | String c s' => if is_slash c then s' else s
                 | EmptyString => s
                 end) EmptyString []).

Definition is_authority_end (s : string) : bool :=
  match s with
  | EmptyString => true
  | String c _ => is_slash c || (code c =? 63)%N || (code c =? 35)%N
  end.

(** [new URL(input)] for the endpoints [Browser.wsEndpoint()] returns,
    [ws://<host>:<port><path>]: [None] where the constructor throws, and
    on the inputs this model does not follow (another scheme or another
    spelling of this one, credentials, an IPv6 host). *)
Definition new_URL (input : string) : option URL :=
  let s := remove_tab_newline (trim_trailing (trim_leading input)) in
  match strip_prefix "ws://" s with
  | None => None
  | Some s1 =>
      match span is_host_char s1 with
      | (EmptyString, _) => None
      | (_, String ":" s2) =>
          let '(ds, s3) := span is_digit s2 in
          if is_authority_end s3 then
            match port_of_digits ds with
            | Some p => Some {| port := p; pathname := pathname_of s3 |}
            | None => None
            end
          else None
      | (_, s2) =>
          if is_authority_end s2
          then Some {| port := EmptyString; pathname := pathname_of s2 |}
          else None
      end
  end.

(** The input as the parser reads it: without leading and trailing C0
    controls and spaces, and without tabs and newlines. *)
Definition clean (input : string) : string :=
  remove_tab_newline (trim_trailing (trim_leading input)).

(** What follows the first [#] of a string, if it has one. *)
Fixpoint fragment_of (s : string) : option string :=
  match s with
  | String c s' => if (code c =? 35)%N then Some s' else fragment_of s'
  | EmptyString => None
  end.

(** The [hash] getter: empty for no fragment and for an empty one. *)
Definition hash (input : string) : string :=
  match fragment_of (clean input) with
  | Some (String c f) => String "#" (String c f)
  | _ => EmptyString
  end.

End Url.

(** ** Configuration read from the environment *)

Record config := {
  AUTH_TOKEN : option string;      (* process.env.AUTH_TOKEN *)
  PUBLIC_DOMAIN : option string    (* process.env.PUBLIC_DOMAIN *)
}.

Definition INACTIVE_TAB_TIMEOUT_MS : Z := 5 * 60 * 1000.

(** ** The multiplexer: endpoint rewriting and the connection handler.
    Console output is not part of the model. *)

Module Multiplexer.
Import Chars.

(** [remapWebSocketEndpoint]; [None] where [new URL] throws. *)
Definition remapWebSocketEndpoint (cfg : config) (wsEndpoint : string)
  : option string :=
  match Url.new_URL wsEndpoint with
  | Some wsUrl =>
      let browserWsPort := Url.port wsUrl in
      Some ("wss://" +:+ template (PUBLIC_DOMAIN cfg) +:+ "/"
            +:+ browserWsPort +:+ Url.pathname wsUrl)
  | None => None
  end.

Record ws_options := {
  perMessageDeflate : bool;
  handshakeTimeout : Z;
  maxPayload : Z
}.

(** What the connection handler does to the two sockets before any event
    handler is installed. *)
Inductive effect :=
| ClientClose (code : Z) (reason : string)    (* clientWs.close(code, reason) *)
| NewWS (url : string) (opts : ws_options)    (* new WS(targetUrl, {...}) *)
| WsThrows.                                   (* new WS(...) throws a SyntaxError *)

(** [request.url || ''] *)
Definition request_path (url : option string) : string :=
  match url with
  | Some u => u
  | None => EmptyString
  end.

Definition targetUrl (path : string) : option string :=
  match PathRegex.path_match path with
  | Some (originalPort, originalPath) =>
      Some ("ws://127.0.0.1:" +:+ originalPort +:+ originalPath)
  | None => None
  end.

(** The constructor of the socket library parses its address with
    [new URL] and throws a SyntaxError when that fails, or when the address
    has a fragment.  The addresses the handler builds are on the loopback
    host, where [Url.new_URL] follows the parser. *)
Definition ws_accepts (address : string) : bool :=
  match Url.new_URL address with
  | Some _ =>
      match Url.hash address with
      | EmptyString => true
      | String _ _ => false
      end
  | None => false
  end.

(** The handler up to the construction of the internal socket.  When the
    constructor throws, the exception leaves the handler: nothing was done
    to the client socket and no listener was installed. *)
Definition on_connection (url : option string) : list effect :=
  let path := request_path url in
  match targetUrl path with
  | None => [ClientClose 1002 "Invalid WebSocket URL format"]
  | Some target =>
      if ws_accepts target
      then [NewWS target {| perMessageDeflate := false;
                            handshakeTimeout := 5000;
                            maxPayload := 50 * 1024 * 1024 |}]
      else [WsThrows]
  end.

End Multiplexer.

(** ** One relay between a client socket and the internal socket *)

Module Proxy.

Inductive readyState := CONNECTING | OPEN | CLOSING | CLOSED.

Definition is_open (r : readyState) : bool :=
  match r with OPEN => true | _ => false end.

Record frame := { data : string; isBinary : bool }.

Inductive leg := Client | Chrome.

Definition other (l : leg) : leg :=
  match l with Client => Chrome | Chrome => Client end.

(** The two sockets, the flag of the handler, the listeners that the
    message handler added with [chromeWs.once('open', ...)] (each one holds
    its frame; an emitter calls listeners in the order they were added),
    and what was done to the sockets so far. *)
Record session := {
  clientWs : readyState;
  chromeWs : readyState;
  connectionActive : bool;
  onceOpen : list frame;
  chromeSent : list frame;   (* frames given to chromeWs.send, oldest first *)
  clientSent : list frame;   (* frames given to clientWs.send, oldest first *)
  clientCloses : nat;        (* calls of clientWs.close() by cleanup *)
  chromeCloses : nat;        (* calls of chromeWs.close() by cleanup *)
  chromePings : nat
}.

(** The relay right after the connection handler returns: the client
    socket is open, the internal one is connecting. *)
Definition init : session :=
  {| clientWs := OPEN; chromeWs := CONNECTING; connectionActive := false;
     onceOpen := []; chromeSent := []; clientSent := [];
     clientCloses := 0; chromeCloses := 0; chromePings := 0 |}.

(** *** The socket library.  [send] delivers on an open socket only (it
    throws while connecting, which the handlers catch, and reports an error
    to its callback afterwards); [close] takes an open socket to
    [CLOSING]. *)

Definition ws_send (r : readyState) (f : frame) (sent : list frame)
  : list frame :=
  if is_open r then sent ++ [f] else sent.

Definition ws_close (r : readyState) : readyState :=
  match r with
  | OPEN => CLOSING
  | CONNECTING => CLOSING
  | r => r
  end.

(** *** The handlers of the source *)

(** [clientWs.on('message', ...)] *)
Definition on_client_message (f : frame) (s : session) : session :=
  if is_open (chromeWs s)
  then {| clientWs := clientWs s; chromeWs := chromeWs s;
          connectionActive := connectionActive s; onceOpen := onceOpen s;
          chromeSent := ws_send (chromeWs s) f (chromeSent s);
          clientSent := clientSent s;
          clientCloses := clientCloses s; chromeCloses := chromeCloses s;
          chromePings := chromePings s |}
  else {| clientWs := clientWs s; chromeWs := chromeWs s;
          connectionActive := connectionActive s;
          onceOpen := onceOpen s ++ [f];
          chromeSent := chromeSent s; clientSent := clientSent s;
          clientCloses := clientCloses s; chromeCloses := chromeCloses s;
          chromePings := chromePings s |}.

(** [chromeWs.on('message', ...)] *)
Definition on_chrome_message (f : frame) (s : session) : session :=
  if is_open (clientWs s)
  then {| clientWs := clientWs s; chromeWs := chromeWs s;
          connectionActive := connectionActive s; onceOpen := onceOpen s;
          chromeSent := chromeSent s;
          clientSent := ws_send (clientWs s) f (clientSent s);
          clientCloses := clientCloses s; chromeCloses := chromeCloses s;
          chromePings := chromePings s |}
  else s.

(** [chromeWs.on('open', ...)] *)
Definition on_chrome_open (s : session) : session :=
  {| clientWs := clientWs s; chromeWs := chromeWs s;
     connectionActive := true; onceOpen := onceOpen s;
     chromeSent := chromeSent s; clientSent := clientSent s;
     clientCloses := clientCloses s; chromeCloses := chromeCloses s;
     chromePings := S (chromePings s) |}.

(** One listener added by [chromeWs.once('open', ...)] runs. *)
Definition queued_send (s : session) (f : frame) : session :=
  {| clientWs := clientWs s; chromeWs := chromeWs s;
     connectionActive := connectionActive s; onceOpen := onceOpen s;
     chromeSent := ws_send (chromeWs s) f (chromeSent s);
     clientSent := clientSent s;
     clientCloses := clientCloses s; chromeCloses := chromeCloses s;
     chromePings := chromePings s |}.

(** [cleanup] *)
Definition cleanup (s : session) : session :=
  let closeClient := is_open (clientWs s) in
  let closeChrome := is_open (chromeWs s) in
  {| clientWs := if closeClient then ws_close (clientWs s) else clientWs s;
     chromeWs := if closeChrome then ws_close (chromeWs s) else chromeWs s;
     connectionActive := false; onceOpen := onceOpen s;
     chromeSent := chromeSent s; clientSent := clientSent s;
     clientCloses := if closeClient then S (clientCloses s) else clientCloses s;
     chromeCloses := if closeChrome then S (chromeCloses s) else chromeCloses s;
     chromePings := chromePings s |}.

(** *** Events.  The library sets the state of the socket, then calls the
    listeners: ['open'] comes once, on a connecting socket, which is then
    [OPEN]; ['close'] comes on a socket that is then [CLOSED]; ['error']
    comes on a socket the library has already moved to [CLOSING];
    ['unexpected-response'] leaves the socket connecting.  Pings and the
    upgrade notice are only logged and are left out. *)
Inductive event :=
| ClientMessage (f : frame)
| ChromeMessage (f : frame)
| ChromeOpen
| Close (l : leg)
| Error (l : leg)
| UnexpectedResponse.

Definition ws (l : leg) (s : session) : readyState :=
  match l with Client => clientWs s | Chrome => chromeWs s end.

Definition closes (l : leg) (s : session) : nat :=
  match l with Client => clientCloses s | Chrome => chromeCloses s end.

Definition set_ws (l : leg) (r : readyState) (s : session) : session :=
  {| clientWs := match l with Client => r | Chrome => clientWs s end;
     chromeWs := match l with Chrome => r | Client => chromeWs s end;
     connectionActive := connectionActive s; onceOpen := onceOpen s;
     chromeSent := chromeSent s; clientSent := clientSent s;
     clientCloses := clientCloses s; chromeCloses := chromeCloses s;
     chromePings := chromePings s |}.

Definition clear_once (s : session) : session :=
  {| clientWs := clientWs s; chromeWs := chromeWs s;
     connectionActive := connectionActive s; onceOpen := [];
     chromeSent := chromeSent s; clientSent := clientSent s;
     clientCloses := clientCloses s; chromeCloses := chromeCloses s;
     chromePings := chromePings s |}.

(** ['open'] is emitted: the handler installed by the connection handler
    was added first, the [once] listeners follow in the order of their
    frames and are removed as they run. *)
Definition emit_open (s : session) : session :=
  let s1 := on_chrome_open s in
  fold_left queued_send (onceOpen s1) (clear_once s1).

Definition step (s : session) (e : event) : session :=
  match e with
  | ClientMessage f => on_client_message f s
  | ChromeMessage f => on_chrome_message f s
  | ChromeOpen =>
      match chromeWs s with
      | CONNECTING => emit_open (set_ws Chrome OPEN s)
      | _ => s
      end
  | Close l => cleanup (set_ws l CLOSED s)
  | Error l =>
      cleanup (match ws l s with
               | CLOSED => s
               | _ => set_ws l CLOSING s
               end)
  | UnexpectedResponse => cleanup s
  end.

Definition run (s : session) (es : list event) : session :=
  fold_left step es s.

Fixpoint client_frames (es : list event) : list frame :=
  match es with
  | ClientMessage f :: es' => f :: client_frames es'
  | _ :: es' => client_frames es'
  | [] => []
  end.

(** Events that can come while the internal socket is still connecting. *)
Definition while_connecting (e : event) : bool :=
  match e with
  | ChromeOpen | Close Chrome | Error Chrome => false
  | _ => true
  end.

Definition is_teardown_of (l : leg) (e : event) : bool :=
  match e, l with
  | Close Client, Client | Error Client, Client => true
  | Close Chrome, Chrome | Error Chrome, Chrome => true
  | _, _ => false
  end.

(** [close()] was called on the socket of leg [l] at most once, and if it
    was, the socket is closing or closed. *)
Definition closing (r : readyState) : bool :=
  match r with CLOSING | CLOSED => true | _ => false end.

Definition closed_once (l : leg) (s : session) : Prop :=
  closes l s = 0 \/ (closes l s = 1 /\ closing (ws l s) = true).

(** The frames the internal socket hands to the relay, in order. *)
Fixpoint chrome_frames (es : list event) : list frame :=
  match es with
  | ChromeMessage f :: es' => f :: chrome_frames es'
  | _ :: es' => chrome_frames es'
  | [] => []
  end.

(** Events whose handlers do not call [cleanup]. *)
Definition relaying (e : event) : bool :=
  match e with
  | ClientMessage _ | ChromeMessage _ | ChromeOpen => true
  | _ => false
  end.

(** What was sent to the internal socket, against the frames the client
    sent so far: while the socket connects nothing was sent and the queue
    holds them all; afterwards what was sent is a selection of them, in
    order. *)
Definition sent_so_far (s : session) (fs : list frame) : Prop :=
  (chromeWs s = CONNECTING /\ chromeSent s = [] /\ onceOpen s = fs)
  \/ (chromeWs s <> CONNECTING /\ chromeSent s `sublist_of` fs).

End Proxy.

(** ** The shared browser, the registry of tab activity and the reaper *)

Module Supervisor.

(** A browser process the engine has started, named by a number. *)
Definition handle := nat.

(** One call of [launchBrowser]: where it is suspended, or how it ended. *)
Inductive call :=
| Probing                        (* at [await browser.pages()] *)
| Launching                      (* at [await puppeteer.launch(...)] *)
| Resolved (b : option handle)   (* returned the value of [browser] *)
| Rejected.                      (* the launch failed and the call threw *)

Record state := {
  browser : option handle;
  tabLastActivity : gmap string Z;
  observers : gset string;   (* identifiers whose page has a 'request' listener *)
  launches : nat;            (* calls of [puppeteer.launch] so far *)
  calls : list call
}.

Definition init : state :=
  {| browser := None; tabLastActivity := ∅; observers := ∅;
     launches := 0; calls := [] |}.

Definition set_registry (m : gmap string Z) (st : state) : state :=
  {| browser := browser st; tabLastActivity := m; observers := observers st;
     launches := launches st; calls := calls st |}.

Inductive target_type := PageTarget | OtherTarget.

Definition is_page (ty : target_type) : bool :=
  match ty with PageTarget => true | OtherTarget => false end.

(** A page as one sweep of the reaper meets it: the identifier of the
    session created for its target ([None] when creating it fails), its
    URL, and whether [page.close()] succeeds. *)
Record page := {
  pg_session : option string;
  pg_url : string;
  pg_close_ok : bool
}.

(** [launchBrowser] up to its first [await]. *)
Definition launchBrowser_begin (st : state) : state :=
  match browser st with
  | Some _ =>
      {| browser := browser st; tabLastActivity := tabLastActivity st;
         observers := observers st; launches := launches st;
         calls := calls st ++ [Probing] |}
  | None =>
      {| browser := browser st; tabLastActivity := tabLastActivity st;
         observers := observers st; launches := S (launches st);
         calls := calls st ++ [Launching] |}
  end.

(** [await browser.pages()] settles for call [i]: the call returns
    [browser], or catches the error and goes on to launch. *)
Definition launchBrowser_probed (i : nat) (ok : bool) (st : state) : state :=
  match calls st !! i with
  | Some Probing =>
      if ok
      then {| browser := browser st; tabLastActivity := tabLastActivity st;
              observers := observers st; launches := launches st;
              calls := <[i := Resolved (browser st)]> (calls st) |}
      else {| browser := browser st; tabLastActivity := tabLastActivity st;
              observers := observers st; launches := S (launches st);
              calls := <[i := Launching]> (calls st) |}
  | _ => st
  end.

(** [await puppeteer.launch(...)] settles for call [i]: [browser] is
    assigned, the three listeners are attached and the call returns. *)
Definition launchBrowser_launched (i : nat) (r : option handle) (st : state)
  : state :=
  match calls st !! i with
  | Some Launching =>
      match r with
      | Some b =>
          {| browser := Some b; tabLastActivity := tabLastActivity st;
             observers := observers st; launches := launches st;
             calls := <[i := Resolved (Some b)]> (calls st) |}
      | None =>
          {| browser := browser st; tabLastActivity := tabLastActivity st;
             observers := observers st; launches := launches st;
             calls := <[i := Rejected]> (calls st) |}
      end
  | _ => st
  end.

(** [browser.on('disconnected', ...)] *)
Definition on_disconnected (st : state) : state :=
  {| browser := None; tabLastActivity := ∅; observers := observers st;
     launches := launches st; calls := calls st |}.

(** [browser.on('targetcreated', ...)] from the point where
    [createCDPSession] has settled: [sess] is [session.id()], or [None] when
    creating the session threw; [now] is [Date.now()]; [has_page] says
    whether [target.page()] gave a page. *)
Definition on_targetcreated (ty : target_type) (sess : option string)
    (now : Z) (has_page : bool) (st : state) : state :=
  match sess with
  | None => st
  | Some targetId =>
      if is_page ty
      then {| browser := browser st;
              tabLastActivity := <[targetId := now]> (tabLastActivity st);
              observers := if has_page then {[targetId]} ∪ observers st
                           else observers st;
              launches := launches st; calls := calls st |}
      else st
  end.

(** The listener [page.on('request', ...)] of the page registered under
    [targetId]. *)
Definition on_request (targetId : string) (now : Z) (st : state) : state :=
  if decide (targetId ∈ observers st)
  then set_registry (<[targetId := now]> (tabLastActivity st)) st
  else st.

(** [browser.on('targetdestroyed', ...)] *)
Definition on_targetdestroyed (ty : target_type) (sess : option string)
    (st : state) : state :=
  match sess with
  | None => st
  | Some targetId =>
      if is_page ty
      then set_registry (delete targetId (tabLastActivity st)) st
      else st
  end.

(** A JavaScript number used as a condition. *)
Definition truthy (n : Z) : bool := negb (n =? 0)%Z.

(** The body of the loop of [cleanupInactiveTabs] for one page; [npages]
    is [pages.length].  The result says whether the page was closed. *)
Definition sweep_page (now : Z) (npages : nat) (reg : gmap string Z)
    (p : page) : gmap string Z * bool :=
  match pg_session p with
  | None => (reg, false)
  | Some targetId =>
      let lastActivity := reg !! targetId in
      let pageUrl := pg_url p in
      if String.eqb pageUrl "about:blank" && (npages <=? 1)%nat
      then (reg, false)
      else
        match lastActivity with
        | Some t =>
            if truthy t && (now - t >? INACTIVE_TAB_TIMEOUT_MS)%Z
            then if pg_close_ok p
                 then (delete targetId reg, true)
                 else (reg, false)
            else (reg, false)
        | None => (reg, false)
        end
  end.

(** The loop: the registry after it and the pages it closed, in order. *)
Fixpoint sweep_pages (now : Z) (npages : nat) (reg : gmap string Z)
    (pages : list page) : gmap string Z * list page :=
  match pages with
  | [] => (reg, [])
  | p :: rest =>
      let '(reg1, closed) := sweep_page now npages reg p in
      let '(reg2, closed_rest) := sweep_pages now npages reg1 rest in
      (reg2, if closed then p :: closed_rest else closed_rest)
  end.

(** [cleanupInactiveTabs], with [now] for [Date.now()] and [pages] for what
    [browser.pages()] gives, as it runs when no other handler runs while it
    is suspended at one of its [await]s. *)
Definition cleanupInactiveTabs (now : Z) (pages : list page) (st : state)
  : state * list page :=
  match browser st with
  | None => (st, [])
  | Some _ =>
      let '(reg, closed) :=
        sweep_pages now (length pages) (tabLastActivity st) pages in
      (set_registry reg st, closed)
  end.

Inductive event :=
| Acquire
| ProbeDone (i : nat) (ok : bool)
| LaunchDone (i : nat) (r : option handle)
| Disconnected
| TargetCreated (ty : target_type) (sess : option string) (now : Z)
    (has_page : bool)
| Request (targetId : string) (now : Z)
| TargetDestroyed (ty : target_type) (sess : option string)
| Sweep (now : Z) (pages : list page).

Definition step (st : state) (e : event) : state :=
  match e with
  | Acquire => launchBrowser_begin st
  | ProbeDone i ok => launchBrowser_probed i ok st
  | LaunchDone i r => launchBrowser_launched i r st
  | Disconnected => on_disconnected st
  | TargetCreated ty sess now has_page =>
      on_targetcreated ty sess now has_page st
  | Request targetId now => on_request targetId now st
  | TargetDestroyed ty sess => on_targetdestroyed ty sess st
  | Sweep now pages => fst (cleanupInactiveTabs now pages st)
  end.

Definition run (st : state) (es : list event) : state :=
  fold_left step es st.


(** The verdict of the loop body on a page that is not exempt, from what
    the registry holds for it. *)
Definition idle (now : Z) (lastActivity : option Z) : bool :=
  match lastActivity with
  | Some t => truthy t && (now - t >? INACTIVE_TAB_TIMEOUT_MS)%Z
  | None => false
  end.

(** Whether the loop body closes page [p], from what the registry holds for
    its identifier. *)
Definition closes_page (now : Z) (npages : nat) (lastActivity : option Z)
    (p : page) : bool :=
  negb (String.eqb (pg_url p) "about:blank" && (npages <=? 1)%nat)
  && idle now lastActivity && pg_close_ok p.

(** The calls of [launchBrowser] in a history, and the calls still waiting
    for their probe. *)
Fixpoint acquires (es : list event) : nat :=
  match es with
  | Acquire :: es' => S (acquires es')
  | _ :: es' => acquires es'
  | [] => 0
  end.

Fixpoint probing (cs : list call) : nat :=
  match cs with
  | Probing :: cs' => S (probing cs')
  | _ :: cs' => probing cs'
  | [] => 0
  end.

(** The identifiers under which a history created page targets. *)
Fixpoint created_ids (es : list event) : gset string :=
  match es with
  | TargetCreated PageTarget (Some targetId) _ _ :: es' =>
      {[targetId]} ∪ created_ids es'
  | _ :: es' => created_ids es'
  | [] => ∅
  end.

(** Each call of [createCDPSession] opens a session of its own, so the
    identifier a sweep obtains for a page is none of those under which the
    history registered page targets. *)
Definition fresh_sessions (es : list event) (pages : list page) : Prop :=
  forall p targetId,
    p ∈ pages -> pg_session p = Some targetId -> targetId ∉ created_ids es.

End Supervisor.

(** ** The HTTP front *)

Module Http.
Import Chars.

Record request := {
  req_url : option string;          (* req.url *)
  authorization : option string     (* req.headers.authorization *)
}.

Inductive body :=
| ErrorBody (error : string)
| StatusBody (status browser : string) (activeTabs : nat)
| BrowserBody (wsEndpoint version : string).

Record response := { statusCode : Z; content : body }.

(** A string used as a condition: the empty string is falsy. *)
Definition truthy (s : option string) : bool :=
  match s with
  | Some (String _ _) => true
  | _ => false
  end.

(** The test of the handler, negated:
    [authHeader && authHeader === `Bearer ${AUTH_TOKEN}`]. *)
Definition authorized (cfg : config) (authHeader : option string) : bool :=
  truthy authHeader
  && match authHeader with
     | Some h => String.eqb h ("Bearer " +:+ template (AUTH_TOKEN cfg))
     | None => false
     end.

Definition pathname_is (p : option string) (s : string) : bool :=
  match p with
  | Some x => String.eqb x s
  | None => false
  end.

Section Handler.

(** [url.parse(u, true).pathname], which the model leaves to the
    platform. *)
Variable pathname : string -> option string.

(** The branches behind the authorization check. [acquired] is what the
    [/browser] branch gets from the engine: the local endpoint and the
    version of the browser [launchBrowser] returned, or [None] when
    launching threw. *)
Definition route (cfg : config) (st : Supervisor.state)
    (acquired : option (string * string)) (parsedPathname : option string)
  : response :=
  if pathname_is parsedPathname "/status" then
    {| statusCode := 200;
       content :=
         StatusBody "running"
           (match Supervisor.browser st with
            | Some _ => "connected"
            | None => "disconnected"
            end)
           (size (Supervisor.tabLastActivity st)) |}
  else if pathname_is parsedPathname "/browser" then
    match acquired with
    | Some (localWsEndpoint, version) =>
        match Multiplexer.remapWebSocketEndpoint cfg localWsEndpoint with
        | Some publicWsEndpoint =>
            {| statusCode := 200;
               content := BrowserBody publicWsEndpoint version |}
        | None =>
            {| statusCode := 500;
               content := ErrorBody "Failed to launch browser" |}
        end
    | None =>
        {| statusCode := 500;
           content := ErrorBody "Failed to launch browser" |}
    end
  else {| statusCode := 404; content := ErrorBody "Not found" |}.

(** The request handler from the authorization check on, for a request
    whose target [url.parse] has parsed; [pathname] gives the pathname of
    the result. *)
Definition handler (cfg : config) (st : Supervisor.state)
    (acquired : option (string * string)) (req : request) : response :=
  if negb (truthy (req_url req))
  then {| statusCode := 400; content := ErrorBody "Invalid request" |}
  else if negb (authorized cfg (authorization req))
  then {| statusCode := 401; content := ErrorBody "Unauthorized" |}
  else route cfg st acquired
         (pathname (Multiplexer.request_path (req_url req))).

End Handler.

(** What [url.parse(req.url, true)] does: it throws, or it gives a result
    whose pathname is a string or null. *)
Inductive parse_result :=
| Throws
| Parsed (parsedPathname : option string).

(** The whole request handler: the test of [req.url], then [url.parse],
    which runs before the authorization check, then the check and the
    routes.  [None]: the handler threw and wrote no response. *)
Definition on_request (url_parse : string -> parse_result) (cfg : config)
    (st : Supervisor.state) (acquired : option (string * string))
    (req : request) : option response :=
  if negb (truthy (req_url req))
  then Some {| statusCode := 400; content := ErrorBody "Invalid request" |}
  else
    match url_parse (Multiplexer.request_path (req_url req)) with
    | Throws => None
    | Parsed parsedPathname =>
        Some (handler (fun _ => parsedPathname) cfg st acquired req)
    end.

(** *** [url.parse] on two kinds of request target *)

Definition is_hex (c : ascii) : bool :=
  is_digit c || ((65 <=? code c) && (code c <=? 70))%N
  || ((97 <=? code c) && (code c <=? 102))%N.

(** [decodeURIComponent] throws a URIError on a percent sign that two
    hexadecimal digits do not follow. *)
Fixpoint malformed_escape (s : string) : bool :=
  match s with
  | String c s1 =>
      if (code c =? 37)%N then
        match s1 with
        | String a (String b s2) =>
            if is_hex a && is_hex b then malformed_escape s2 else true
        | _ => true
        end
      else malformed_escape s1
  | EmptyString => false
  end.

Definition is_printable (c : ascii) : bool :=
  ((33 <=? code c) && (code c <=? 126))%N.

(** Printable, and none of [@], [#] and the backslash. *)
Definition is_simple_target_char (c : ascii) : bool :=
  is_printable c
  && negb ((code c =? 64) || (code c =? 35) || (code c =? 92))%N.

(** Printable, and none of [@], [/], [?], [#] and the backslash. *)
Definition is_userinfo_char (c : ascii) : bool :=
  is_printable c
  && negb ((code c =? 64) || (code c =? 47) || (code c =? 63)
           || (code c =? 35) || (code c =? 92))%N.

Fixpoint before_query (s : string) : string :=
  match s with
  | String c s' =>
      if (code c =? 63)%N then EmptyString else String c (before_query s')
  | EmptyString => EmptyString
  end.

(** A target the parser takes on its fast path: one slash, then printable
    characters without [@], [#] and backslash, the first of them no slash. *)
Definition is_simple_target (u : string) : bool :=
  match u with
  | String c s =>
      (code c =? 47)%N
      && match s with
         | String d _ => negb (code d =? 47)%N
         | EmptyString => true
         end
      && all is_simple_target_char s
  | EmptyString => false
  end.

(** A target that begins with two slashes, user information and an [@]
    before a host: the parser decodes the user information, and that
    throws when an escape in it is malformed. *)
Definition has_undecodable_userinfo (u : string) : bool :=
  match u with
  | String c1 (String c2 s) =>
      (code c1 =? 47)%N && (code c2 =? 47)%N
      && match span is_userinfo_char s with
         | (String _ _ as userinfo, String at_sign (String h _)) =>
             (code at_sign =? 64)%N && is_alnum h && malformed_escape userinfo
         | _ => false
         end
  | _ => false
  end.

(** [url.parse(u, true)] where this file follows it: the pathname of a
    simple target is what precedes its first [?]; undecodable user
    information makes the parser throw. *)
Definition url_parse_on (u : string) : option parse_result :=
  if is_simple_target u then Some (Parsed (Some (before_query u)))
  else if has_undecodable_userinfo u then Some Throws
  else None.

(** A parser for examples that stay on those two kinds of target; on any
    other target its answer is arbitrary. *)
Definition url_parse_sketch (u : string) : parse_result :=
  match url_parse_on u with
  | Some r => r
  | None => Throws
  end.

End Http.

(** * Properties *)

(** ** Strings *)

Section StringFacts.
Import Chars.

Lemma str_app_cons (c : ascii) (s t : string) :
  String c s +:+ t = String c (s +:+ t).
Proof. reflexivity. Qed.

Lemma str_app_nil_l (s : string) : "" +:+ s = s.
Proof. reflexivity. Qed.

Lemma str_app_nil_r (s : string) : s +:+ "" = s.
Proof.
  induction s as [|c s IH]; [reflexivity |].
  now rewrite str_app_cons, IH.
Qed.

Lemma str_app_assoc (a b c : string) : (a +:+ b) +:+ c = a +:+ (b +:+ c).
Proof.
  induction a as [|x a IH]; [reflexivity |].
  now rewrite !str_app_cons, IH.
Qed.

Lemma all_app (p : ascii -> bool) (a b : string) :
  all p (a +:+ b) = all p a && all p b.
Proof.
  induction a as [|x a IH]; [reflexivity |].
  rewrite str_app_cons. simpl. rewrite IH. now rewrite andb_assoc.
Qed.

Lemma all_impl (p q : ascii -> bool) (s : string) :
  (forall c, p c = true -> q c = true) -> all p s = true -> all q s = true.
Proof.
  intros Hpq. induction s as [|c s IH]; simpl; [reflexivity |].
  intros [Hc Hs]%andb_prop. rewrite (Hpq _ Hc). now apply IH.
Qed.

(** What [span] returns splits its argument, and the first part is in [p]. *)
Lemma span_spec (p : ascii -> bool) (s a r : string) :
  span p s = (a, r) -> s = a +:+ r /\ all p a = true.
Proof.
  revert a r. induction s as [|c s IH]; simpl; intros a r H.
  - inversion H. now split.
  - destruct (p c) eqn:Hc.
    + destruct (span p s) as [a' r'] eqn:Hs. inversion H; subst.
      destruct (IH a' r eq_refl) as [-> Ha].
      rewrite str_app_cons. simpl. now rewrite Hc, Ha.
    + inversion H. now split.
Qed.

(** A run of [p] followed by something that is not in [p] is the run
    [span] finds. *)
Lemma span_app (p : ascii -> bool) (a r : string) :
  all p a = true -> stops p r -> span p (a +:+ r) = (a, r).
Proof.
  intros Ha Hr. induction a as [|c a IH].
  - rewrite str_app_nil_l.
    destruct r as [|c r]; simpl in *; [reflexivity | now rewrite Hr].
  - rewrite str_app_cons. simpl in *.
    apply andb_prop in Ha as [Hc Ha]. now rewrite Hc, (IH Ha).
Qed.

End StringFacts.

(** ** The path parser *)

Section PathFacts.
Import Chars PathRegex.

Lemma slash_is_no_digit (r : string) : stops is_digit ("/" +:+ r).
Proof. reflexivity. Qed.

(** The pattern matches exactly the paths of the named form. *)
Lemma path_match_form (path : string) :
  path_match path <> None <-> slash_digits_slash_rest path.
Proof.
  split.
  - destruct path as [|c s]; simpl; [congruence |].
    destruct (Ascii.eqb_spec c "/") as [-> | Hc].
    + unfold span_digits.
      destruct (span is_digit s) as [ds r] eqn:Hs.
      apply span_spec in Hs as [-> Hds].
      destruct ds as [|d ds]; [congruence |].
      destruct r as [|c r]; [congruence |].
      destruct (Ascii.eqb_spec c "/") as [-> | Hc].
      * intros _. exists (String d ds), r. repeat split; [congruence | assumption].
      * destruct c as [[] [] [] [] [] [] [] []]; congruence.
    + destruct c as [[] [] [] [] [] [] [] []]; congruence.
  - intros (ds & rest & Hne & Hds & ->).
    unfold path_match. rewrite str_app_cons, str_app_nil_l. unfold span_digits.
    rewrite (span_app is_digit ds ("/" +:+ rest) Hds (slash_is_no_digit rest)).
    destruct ds as [|d ds]; [congruence |].
    rewrite str_app_cons, str_app_nil_l. congruence.
Qed.

End PathFacts.

(** ** The URL parser on the endpoints of the browser *)

Section UrlFacts.
Import Chars Url.

(** Facts about single characters are settled by running through the 256
    of them. *)
Ltac by_cases_on c :=
  destruct c as [[] [] [] [] [] [] [] []]; vm_compute; intuition congruence.

Lemma path_char_cases (c : ascii) :
  is_path_char c = true ->
  (c = "/"%char \/
   (is_slash c = false /\ is_seg_char c = true
    /\ ((code c =? 63) || (code c =? 35))%N = false
    /\ percent_encode c = String c "")).
Proof. by_cases_on c. Qed.

Lemma path_char_graphic (c : ascii) :
  is_path_char c = true ->
  is_c0_or_space c = false /\ is_line_terminator c = false.
Proof. by_cases_on c. Qed.

Lemma digit_graphic (c : ascii) :
  is_digit c = true -> is_c0_or_space c = false.
Proof. by_cases_on c. Qed.

Lemma tab_newline_is_c0 (c : ascii) :
  is_c0_or_space c = false -> is_tab_or_newline c = false.
Proof. by_cases_on c. Qed.

Lemma seg_char_no_dot (c : ascii) :
  is_seg_char c = true ->
  Ascii.eqb (lower c) "." = false /\ Ascii.eqb (lower c) "%" = false.
Proof. by_cases_on c. Qed.

Lemma trim_leading_graphic (s : string) :
  all graphic s = true -> trim_leading s = s.
Proof.
  destruct s as [|c s]; simpl; [reflexivity |].
  unfold graphic. intros [Hc _]%andb_prop.
  now apply negb_true_iff in Hc as ->.
Qed.

Lemma trim_trailing_graphic (s : string) :
  all graphic s = true -> trim_trailing s = s.
Proof.
  induction s as [|c s IH]; simpl; [reflexivity |].
  unfold graphic at 1. intros [Hc Hs]%andb_prop.
  apply negb_true_iff in Hc. rewrite (IH Hs), Hc. now destruct s.
Qed.

Lemma remove_tab_newline_graphic (s : string) :
  all graphic s = true -> remove_tab_newline s = s.
Proof.
  induction s as [|c s IH]; simpl; [reflexivity |].
  unfold graphic at 1. intros [Hc Hs]%andb_prop.
  apply negb_true_iff in Hc. now rewrite (tab_newline_is_c0 c Hc), (IH Hs).
Qed.

Lemma strip_prefix_app (p s : string) : strip_prefix p (p +:+ s) = Some s.
Proof.
  induction p as [|c p IH]; [now destruct s |].
  rewrite str_app_cons. simpl. now rewrite Ascii.eqb_refl.
Qed.

(** *** Decimal numerals *)

Lemma string_of_uint_digits (d : uint) :
  all is_digit (NilEmpty.string_of_uint d) = true.
Proof. induction d; simpl; auto. Qed.

Lemma decimal_digits (n : N) : all is_digit (decimal n) = true.
Proof. apply string_of_uint_digits. Qed.

Lemma decimal_nonempty (n : N) : decimal n <> "".
Proof.
  unfold decimal. intros H.
  assert (Hnil : N.to_uint n = Nil) by (destruct (N.to_uint n); now inversion H).
  destruct n as [|p]; [discriminate |].
  now apply (DecimalPos.Unsigned.to_uint_nonnil p).
Qed.

Lemma port_of_decimal (n : N) :
  (n <= 65535)%N ->
  port_of_digits (decimal n)
  = Some (if (n =? ws_default_port)%N then "" else decimal n).
Proof.
  intros Hn. unfold port_of_digits.
  destruct (decimal n) as [|c s] eqn:Hd; [now apply decimal_nonempty in Hd |].
  rewrite <- Hd. unfold decimal at 1. rewrite NilEmpty.usu.
  rewrite DecimalN.Unsigned.of_to.
  apply N.ltb_ge in Hn. rewrite Hn. now destruct (n =? ws_default_port)%N.
Qed.

(** *** The path state on plain segments *)

Lemma serialize_path_snoc (path : list string) (seg : string) :
  serialize_path (path ++ [seg])%list = serialize_path path +:+ "/" +:+ seg.
Proof.
  induction path as [|x path IH]; simpl.
  - now rewrite str_app_nil_r.
  - now rewrite IH, !str_app_assoc.
Qed.

Lemma plain_buffer_no_dots (buffer : string) :
  all is_seg_char buffer = true ->
  is_double_dot buffer = false /\ is_single_dot buffer = false.
Proof.
  destruct buffer as [|c b]; [now split |].
  simpl. intros [Hc _]%andb_prop.
  destruct (seg_char_no_dot c Hc) as [Hdot Hpct].
  unfold is_double_dot, is_single_dot. simpl. now rewrite Hdot, Hpct.
Qed.

Lemma end_segment_plain (buffer : string) (slash : bool) (path : list string) :
  all is_seg_char buffer = true ->
  end_segment buffer slash path = (path ++ [buffer])%list.
Proof.
  intros [Hdd Hsd]%plain_buffer_no_dots. unfold end_segment.
  now rewrite Hdd, Hsd.
Qed.

(** Segments of plain characters go through the path state unchanged. *)
Lemma path_state_plain (s buffer : string) (path : list string) :
  all is_path_char s = true -> all is_seg_char buffer = true ->
  serialize_path (path_state s buffer path)
  = serialize_path path +:+ "/" +:+ buffer +:+ s.
Proof.
  revert buffer path. induction s as [|c s IH]; intros buffer path Hs Hb.
  - simpl. rewrite (end_segment_plain _ _ _ Hb), serialize_path_snoc.
    now rewrite str_app_nil_r.
  - simpl in Hs. apply andb_prop in Hs as [Hc Hs]. simpl.
    destruct (path_char_cases c Hc) as [-> | (Hsl & Hseg & Hq & Hpe)].
    + change (is_slash "/") with true. cbv iota.
      rewrite (IH "" _ Hs eq_refl), (end_segment_plain _ _ _ Hb).
      rewrite serialize_path_snoc, str_app_nil_l.
      now rewrite !str_app_assoc.
    + rewrite Hsl, Hq, Hpe.
      rewrite (IH _ path Hs).
      * now rewrite !str_app_assoc.
      * rewrite all_app, Hb. simpl. now rewrite Hseg.
Qed.

Lemma pathname_plain (rest : string) :
  all is_path_char rest = true -> pathname_of ("/" +:+ rest) = "/" +:+ rest.
Proof.
  intros Hr. unfold pathname_of. rewrite str_app_cons, str_app_nil_l.
  change (is_slash "/") with true. cbv iota.
  now rewrite (path_state_plain rest "" [] Hr eq_refl).
Qed.

Lemma dot_star_plain (rest : string) :
  all is_path_char rest = true -> PathRegex.dot_star rest = rest.
Proof.
  induction rest as [|c s IH]; simpl; [reflexivity |].
  intros [Hc Hs]%andb_prop.
  destruct (path_char_graphic c Hc) as [_ ->]. now rewrite (IH Hs).
Qed.

Lemma endpoint_graphic (n : N) (rest : string) :
  all is_path_char rest = true ->
  all graphic ("ws://127.0.0.1:" +:+ decimal n +:+ "/" +:+ rest) = true.
Proof.
  intros Hr. rewrite !all_app.
  rewrite (all_impl is_digit graphic (decimal n)), (all_impl is_path_char graphic rest);
    [reflexivity | | assumption | | apply decimal_digits].
  - intros c Hc. unfold graphic. now destruct (path_char_graphic c Hc) as [-> _].
  - intros c Hc. unfold graphic. now rewrite (digit_graphic c Hc).
Qed.

(** [new URL] on a loopback endpoint with a port in range and a plain
    path. *)
Lemma new_URL_endpoint (n : N) (rest : string) :
  (n <= 65535)%N -> all is_path_char rest = true ->
  new_URL ("ws://127.0.0.1:" +:+ decimal n +:+ "/" +:+ rest)
  = Some {| port := if (n =? ws_default_port)%N then "" else decimal n;
            pathname := "/" +:+ rest |}.
Proof.
  intros Hn Hr. unfold new_URL.
  pose proof (endpoint_graphic n rest Hr) as Hg.
  rewrite (trim_leading_graphic _ Hg), (trim_trailing_graphic _ Hg),
    (remove_tab_newline_graphic _ Hg).
  change ("ws://127.0.0.1:" +:+ decimal n +:+ "/" +:+ rest)
    with ("ws://" +:+ "127.0.0.1" +:+ ":" +:+ decimal n +:+ "/" +:+ rest).
  rewrite strip_prefix_app.
  rewrite (span_app is_host_char "127.0.0.1"
             (":" +:+ decimal n +:+ "/" +:+ rest) eq_refl eq_refl).
  rewrite (str_app_cons ":"), str_app_nil_l.
  rewrite (span_app is_digit (decimal n) ("/" +:+ rest)
             (decimal_digits n) (slash_is_no_digit rest)).
  change (is_authority_end ("/" +:+ rest)) with true. cbv iota.
  now rewrite (port_of_decimal n Hn), (pathname_plain rest Hr).
Qed.

End UrlFacts.

(** *** The parsers on sample inputs *)

Example url_ex1 :
  Url.new_URL "ws://127.0.0.1:43507/devtools/browser/xxx"
  = Some {| Url.port := "43507"; Url.pathname := "/devtools/browser/xxx" |}.
Proof. vm_compute. reflexivity. Qed.

Example url_ex2 :
  Url.new_URL "ws://127.0.0.1:80/a/../b/./c?x#y"
  = Some {| Url.port := ""; Url.pathname := "/b/c" |}.
Proof. vm_compute. reflexivity. Qed.

Example url_ex3 :
  Url.new_URL "ws://127.0.0.1:0080/a b/%2E%2e/"
  = Some {| Url.port := ""; Url.pathname := "/" |}.
Proof. vm_compute. reflexivity. Qed.

Example url_ex4 : Url.new_URL "ws://127.0.0.1:65536/" = None.
Proof. vm_compute. reflexivity. Qed.

Example url_ex5 :
  Url.new_URL "ws://localhost:0443"
  = Some {| Url.port := "443"; Url.pathname := "/" |}.
Proof. vm_compute. reflexivity. Qed.

Example url_ex6 :
  Url.new_URL "ws://h/a b{/.."
  = Some {| Url.port := ""; Url.pathname := "/" |}.
Proof. vm_compute. reflexivity. Qed.

Example path_ex1 :
  PathRegex.path_match "/43507/devtools/browser/xxx"
  = Some ("43507", "/devtools/browser/xxx").
Proof. reflexivity. Qed.

Example path_ex2 : PathRegex.path_match "/43507" = None.
Proof. reflexivity. Qed.

(** ** The multiplexer *)

Section MultiplexerFacts.
Import Chars PathRegex Url Multiplexer.

Lemma targetUrl_None_iff (path : string) :
  targetUrl path = None <-> ~ slash_digits_slash_rest path.
Proof.
  rewrite <- path_match_form. unfold targetUrl.
  destruct (path_match path) as [[p r]|]; split; try congruence.
  intros H. now contradiction H.
Qed.

(** The internal target of a path of the expected form whose remainder
    holds no line terminator. *)
Lemma targetUrl_of_form (ds rest : string) :
  ds <> "" -> all is_digit ds = true -> dot_star rest = rest ->
  targetUrl ("/" +:+ ds +:+ "/" +:+ rest)
  = Some ("ws://127.0.0.1:" +:+ ds +:+ "/" +:+ rest).
Proof.
  intros Hne Hds Hrest. unfold targetUrl, path_match.
  rewrite (str_app_cons "/"), str_app_nil_l. unfold span_digits.
  rewrite (span_app is_digit ds ("/" +:+ rest) Hds (slash_is_no_digit rest)).
  destruct ds as [|d ds]; [congruence |].
  rewrite (str_app_cons "/"), str_app_nil_l. now rewrite Hrest.
Qed.

End MultiplexerFacts.

(** ** The constructor of the internal socket *)

Section ConstructorFacts.
Import Chars Url Multiplexer.

Lemma path_char_no_hash (c : ascii) :
  is_path_char c = true -> (code c =? 35)%N = false.
Proof. destruct c as [[] [] [] [] [] [] [] []]; vm_compute; congruence. Qed.

Lemma digit_no_hash (c : ascii) :
  is_digit c = true -> (code c =? 35)%N = false.
Proof. destruct c as [[] [] [] [] [] [] [] []]; vm_compute; congruence. Qed.

Lemma fragment_of_app_none (a b : string) :
  all (fun c => negb (code c =? 35)%N) a = true ->
  fragment_of (a +:+ b) = fragment_of b.
Proof.
  induction a as [|c a IH]; [reflexivity |].
  rewrite str_app_cons. simpl. intros [Hc Ha]%andb_prop.
  apply negb_true_iff in Hc. now rewrite Hc, (IH Ha).
Qed.

Lemma clean_graphic (s : string) : all graphic s = true -> clean s = s.
Proof.
  intros Hg. unfold clean.
  now rewrite (trim_leading_graphic _ Hg), (trim_trailing_graphic _ Hg),
    (remove_tab_newline_graphic _ Hg).
Qed.

(** A loopback endpoint with a plain path has no fragment. *)
Lemma hash_endpoint (n : N) (rest : string) :
  all is_path_char rest = true ->
  hash ("ws://127.0.0.1:" +:+ decimal n +:+ "/" +:+ rest) = "".
Proof.
  intros Hr. unfold hash. rewrite (clean_graphic _ (endpoint_graphic n rest Hr)).
  rewrite (fragment_of_app_none "ws://127.0.0.1:") by reflexivity.
  rewrite (fragment_of_app_none (decimal n)).
  - rewrite (fragment_of_app_none "/") by reflexivity.
    rewrite <- (str_app_nil_r rest), fragment_of_app_none; [reflexivity |].
    apply (all_impl is_path_char); [| exact Hr].
    intros c Hc. now rewrite (path_char_no_hash c Hc).
  - apply (all_impl is_digit); [| apply decimal_digits].
    intros c Hc. now rewrite (digit_no_hash c Hc).
Qed.

Lemma port_of_large_decimal (n : N) :
  (65535 < n)%N -> port_of_digits (decimal n) = None.
Proof.
  intros Hn. unfold port_of_digits.
  destruct (decimal n) as [|c s] eqn:Hd; [now apply decimal_nonempty in Hd |].
  rewrite <- Hd. unfold decimal at 1. rewrite NilEmpty.usu.
  rewrite DecimalN.Unsigned.of_to.
  apply N.ltb_lt in Hn. now rewrite Hn.
Qed.

(** [new URL] throws on a port above 65535. *)
Lemma new_URL_port_too_large (n : N) (rest : string) :
  (65535 < n)%N -> all is_path_char rest = true ->
  new_URL ("ws://127.0.0.1:" +:+ decimal n +:+ "/" +:+ rest) = None.
Proof.
  intros Hn Hr. unfold new_URL.
  pose proof (endpoint_graphic n rest Hr) as Hg.
  rewrite (trim_leading_graphic _ Hg), (trim_trailing_graphic _ Hg),
    (remove_tab_newline_graphic _ Hg).
  change ("ws://127.0.0.1:" +:+ decimal n +:+ "/" +:+ rest)
    with ("ws://" +:+ "127.0.0.1" +:+ ":" +:+ decimal n +:+ "/" +:+ rest).
  rewrite strip_prefix_app.
  rewrite (span_app is_host_char "127.0.0.1"
             (":" +:+ decimal n +:+ "/" +:+ rest) eq_refl eq_refl).
  rewrite (str_app_cons ":"), str_app_nil_l.
  rewrite (span_app is_digit (decimal n) ("/" +:+ rest)
             (decimal_digits n) (slash_is_no_digit rest)).
  change (is_authority_end ("/" +:+ rest)) with true. cbv iota.
  now rewrite (port_of_large_decimal n Hn).
Qed.

Lemma ws_accepts_endpoint (n : N) (rest : string) :
  (n <= 65535)%N -> all is_path_char rest = true ->
  ws_accepts ("ws://127.0.0.1:" +:+ decimal n +:+ "/" +:+ rest) = true.
Proof.
  intros Hn Hr. unfold ws_accepts.
  now rewrite (new_URL_endpoint n rest Hn Hr), (hash_endpoint n rest Hr).
Qed.

Lemma ws_rejects_large_port (n : N) (rest : string) :
  (65535 < n)%N -> all is_path_char rest = true ->
  ws_accepts ("ws://127.0.0.1:" +:+ decimal n +:+ "/" +:+ rest) = false.
Proof.
  intros Hn Hr. unfold ws_accepts.
  now rewrite (new_URL_port_too_large n rest Hn Hr).
Qed.

(** The handler on a path that spells a port in decimal before a plain
    remainder. *)
Lemma on_connection_endpoint (n : N) (rest : string) :
  all is_path_char rest = true ->
  on_connection (Some ("/" +:+ decimal n +:+ "/" +:+ rest))
  = if ws_accepts ("ws://127.0.0.1:" +:+ decimal n +:+ "/" +:+ rest)
    then [NewWS ("ws://127.0.0.1:" +:+ decimal n +:+ "/" +:+ rest)
            {| perMessageDeflate := false; handshakeTimeout := 5000;
               maxPayload := 52428800 |}]
    else [WsThrows].
Proof.
  intros Hr. unfold on_connection, request_path.
  rewrite (targetUrl_of_form (decimal n) rest);
    [reflexivity | apply decimal_nonempty | apply decimal_digits
    | now apply dot_star_plain].
Qed.

End ConstructorFacts.

(** C1. An inbound connection whose request path is not of the form slash,
    one or more digits, slash, remainder is closed with close code 1002, and
    the handler constructs no internal WebSocket for it. *)
Theorem invalid_path_closed_1002 (url : option string) :
  ~ PathRegex.slash_digits_slash_rest (Multiplexer.request_path url) ->
  Multiplexer.on_connection url
  = [Multiplexer.ClientClose 1002 "Invalid WebSocket URL format"]
  /\ forall target opts,
       ~ In (Multiplexer.NewWS target opts) (Multiplexer.on_connection url).
Proof.
  intros H%targetUrl_None_iff. unfold Multiplexer.on_connection. rewrite H.
  split; [reflexivity |].
  intros target opts [Heq | []]. discriminate Heq.
Qed.

Lemma invalid_path_closed_1002_witness :
  ~ PathRegex.slash_digits_slash_rest
      (Multiplexer.request_path (Some "/devtools/browser/abc"))
  /\ (Multiplexer.on_connection (Some "/devtools/browser/abc")
      = [Multiplexer.ClientClose 1002 "Invalid WebSocket URL format"]
      /\ forall target opts,
           ~ In (Multiplexer.NewWS target opts)
               (Multiplexer.on_connection (Some "/devtools/browser/abc"))).
Proof.
  assert (H : ~ PathRegex.slash_digits_slash_rest
                (Multiplexer.request_path (Some "/devtools/browser/abc"))).
  { apply targetUrl_None_iff. reflexivity. }
  split; [exact H | exact (invalid_path_closed_1002 _ H)].
Defined.

(** C2, as amended. For a port number from 0 to 65535 other than 80, written
    in decimal, and a path made of a slash and of letters, digits, hyphens,
    underscores and slashes, [remapWebSocketEndpoint] turns the loopback
    endpoint into the public form with the port as first path segment, and
    the multiplexer, given the path of that public form, selects the
    loopback endpoint again. *)
Theorem remap_then_parse_roundtrip (cfg : config) (n : N) (rest : string) :
  (n <= 65535)%N -> n <> 80%N -> Chars.all Chars.is_path_char rest = true ->
  Multiplexer.remapWebSocketEndpoint cfg
    ("ws://127.0.0.1:" +:+ Url.decimal n +:+ "/" +:+ rest)
  = Some ("wss://" +:+ Chars.template (PUBLIC_DOMAIN cfg)
          +:+ "/" +:+ Url.decimal n +:+ "/" +:+ rest)
  /\ Multiplexer.targetUrl ("/" +:+ Url.decimal n +:+ "/" +:+ rest)
     = Some ("ws://127.0.0.1:" +:+ Url.decimal n +:+ "/" +:+ rest).
Proof.
  intros Hn H80 Hrest. split.
  - unfold Multiplexer.remapWebSocketEndpoint.
    rewrite (new_URL_endpoint n rest Hn Hrest). simpl.
    apply N.eqb_neq in H80. unfold Url.ws_default_port. now rewrite H80.
  - apply targetUrl_of_form.
    + apply decimal_nonempty.
    + apply decimal_digits.
    + now apply dot_star_plain.
Qed.

Lemma remap_then_parse_roundtrip_witness :
  (43507 <= 65535)%N /\ 43507%N <> 80%N
  /\ Chars.all Chars.is_path_char "devtools/browser/3a95e2df-6cf8" = true
  /\ Multiplexer.remapWebSocketEndpoint
       {| AUTH_TOKEN := Some "secret"; PUBLIC_DOMAIN := Some "ws.example.com" |}
       ("ws://127.0.0.1:" +:+ Url.decimal 43507 +:+ "/"
        +:+ "devtools/browser/3a95e2df-6cf8")
     = Some ("wss://" +:+ "ws.example.com" +:+ "/" +:+ Url.decimal 43507
             +:+ "/" +:+ "devtools/browser/3a95e2df-6cf8")
  /\ Multiplexer.targetUrl
       ("/" +:+ Url.decimal 43507 +:+ "/" +:+ "devtools/browser/3a95e2df-6cf8")
     = Some ("ws://127.0.0.1:" +:+ Url.decimal 43507 +:+ "/"
             +:+ "devtools/browser/3a95e2df-6cf8").
Proof.
  assert (Hn : (43507 <= 65535)%N) by lia.
  assert (H80 : 43507%N <> 80%N) by lia.
  assert (Hr : Chars.all Chars.is_path_char "devtools/browser/3a95e2df-6cf8" = true)
    by reflexivity.
  split; [exact Hn |]. split; [exact H80 |]. split; [exact Hr |].
  exact (remap_then_parse_roundtrip
           {| AUTH_TOKEN := Some "secret"; PUBLIC_DOMAIN := Some "ws.example.com" |}
           43507 "devtools/browser/3a95e2df-6cf8" Hn H80 Hr).
Defined.

(** C2 fails as stated. For the port string 80 the URL parser drops the
    port, the default of the scheme: the rewritten endpoint has an empty
    first segment, and its path is one the multiplexer rejects. *)
Lemma remap_drops_port_80 :
  Multiplexer.remapWebSocketEndpoint
    {| AUTH_TOKEN := Some "secret"; PUBLIC_DOMAIN := Some "ws.example.com" |}
    ("ws://127.0.0.1:" +:+ "80" +:+ "/devtools/browser/abc")
  = Some "wss://ws.example.com//devtools/browser/abc"
  /\ Multiplexer.remapWebSocketEndpoint
       {| AUTH_TOKEN := Some "secret"; PUBLIC_DOMAIN := Some "ws.example.com" |}
       ("ws://127.0.0.1:" +:+ "80" +:+ "/devtools/browser/abc")
     <> Some ("wss://" +:+ "ws.example.com" +:+ "/" +:+ "80"
              +:+ "/devtools/browser/abc")
  /\ Multiplexer.targetUrl "//devtools/browser/abc" = None.
Proof. vm_compute. repeat split; congruence. Qed.

(** ** The relay *)

Section ProxyFacts.
Import Proxy.

Lemma run_app (s : session) (es1 es2 : list event) :
  run s (es1 ++ es2) = run (run s es1) es2.
Proof. apply fold_left_app. Qed.

(** The [once] listeners touch nothing but the frames sent to the internal
    socket, and on an open socket they append theirs in order. *)
Lemma flush_fields (fs : list frame) (s : session) :
  let s' := fold_left queued_send fs s in
  clientWs s' = clientWs s /\ chromeWs s' = chromeWs s
  /\ clientCloses s' = clientCloses s /\ chromeCloses s' = chromeCloses s
  /\ onceOpen s' = onceOpen s
  /\ chromeSent s'
     = if is_open (chromeWs s) then chromeSent s ++ fs else chromeSent s.
Proof.
  revert s. induction fs as [|f fs IH]; intros s; simpl.
  - repeat split. destruct (is_open (chromeWs s)); [now rewrite app_nil_r | reflexivity].
  - destruct (IH (queued_send s f)) as (H1 & H2 & H3 & H4 & H5 & H6).
    simpl in *. rewrite H1, H2, H3, H4, H5, H6. repeat split.
    unfold ws_send. destruct (is_open (chromeWs s)); [| reflexivity].
    now rewrite <- app_assoc.
Qed.

(** What the ['open'] event leaves behind. *)
Lemma step_open (s : session) :
  chromeWs s = CONNECTING ->
  let s' := step s ChromeOpen in
  clientWs s' = clientWs s /\ chromeWs s' = OPEN
  /\ clientCloses s' = clientCloses s /\ chromeCloses s' = chromeCloses s
  /\ onceOpen s' = [] /\ chromeSent s' = chromeSent s ++ onceOpen s.
Proof.
  intros Hc. simpl. rewrite Hc. unfold emit_open.
  destruct (flush_fields (onceOpen (on_chrome_open (set_ws Chrome OPEN s)))
              (clear_once (on_chrome_open (set_ws Chrome OPEN s))))
    as (H1 & H2 & H3 & H4 & H5 & H6).
  simpl in *. now rewrite H1, H2, H3, H4, H5, H6.
Qed.

(** While the internal socket is connecting nothing reaches it, and every
    frame of the client is queued behind the earlier ones. *)
Lemma connecting_queue (pre : list event) (s : session) :
  Forall (fun e => while_connecting e = true) pre ->
  chromeWs s = CONNECTING ->
  chromeWs (run s pre) = CONNECTING
  /\ chromeSent (run s pre) = chromeSent s
  /\ onceOpen (run s pre) = onceOpen s ++ client_frames pre.
Proof.
  intros Hpre. revert s.
  induction Hpre as [|e pre He _ IH]; intros s Hc; simpl.
  - now rewrite app_nil_r.
  - assert (Hstep : chromeWs (step s e) = CONNECTING
                    /\ chromeSent (step s e) = chromeSent s
                    /\ onceOpen (step s e)
                       = onceOpen s ++ match e with
                                       | ClientMessage f => [f]
                                       | _ => []
                                       end).
    { destruct e as [f | f | | [] | [] | ]; try discriminate He;
        simpl; unfold on_client_message, on_chrome_message;
        try rewrite Hc; simpl;
        try (destruct (clientWs s)); simpl; rewrite ?Hc, ?app_nil_r; auto. }
    destruct Hstep as (H1 & H2 & H3).
    destruct (IH (step s e) H1) as (I1 & I2 & I3).
    rewrite I1, I2, I3, H2, H3. repeat split.
    rewrite <- app_assoc. now destruct e.
Qed.

(** Once the internal socket has left [CONNECTING] it never opens again:
    what reaches it later are frames the client sent later, in their
    order. *)
Lemma after_open_only_later (post : list event) (s : session) :
  chromeWs s <> CONNECTING ->
  exists later,
    chromeSent (run s post) = chromeSent s ++ later
    /\ later `sublist_of` client_frames post.
Proof.
  revert s. induction post as [|e post IH]; intros s Hc; simpl.
  - exists []. now rewrite app_nil_r.
  - assert (Hstep : chromeWs (step s e) <> CONNECTING
                    /\ (chromeSent (step s e) = chromeSent s
                        \/ exists f, e = ClientMessage f
                                     /\ chromeSent (step s e) = chromeSent s ++ [f])).
    { destruct e as [f | f | | [] | [] | ]; simpl;
        unfold on_client_message, on_chrome_message, ws_send;
        destruct (chromeWs s) eqn:Hw, (clientWs s) eqn:Hv; simpl;
        rewrite ?Hw, ?Hv; simpl; try congruence; (split; [congruence | eauto]). }
    destruct Hstep as (H1 & H2).
    destruct (IH (step s e) H1) as (later & I1 & I2).
    destruct H2 as [H2 | (f & -> & H2)].
    + exists later. rewrite I1, H2. split; [reflexivity |].
      destruct e; simpl; try assumption. now apply sublist_cons.
    + exists (f :: later). rewrite I1, H2, <- app_assoc. split; [reflexivity |].
      simpl. now apply sublist_skip.
Qed.

(** *** [cleanup] closes each socket at most once *)

Lemma closed_once_step (l : leg) (s : session) (e : event) :
  closed_once l s -> closed_once l (step s e).
Proof.
  unfold closed_once. intros H.
  destruct e as [f | f | | l' | l' | ].
  - simpl. unfold on_client_message.
    destruct (is_open (chromeWs s)); destruct l; simpl in *; assumption.
  - simpl. unfold on_chrome_message.
    destruct (is_open (clientWs s)); destruct l; simpl in *; assumption.
  - destruct (chromeWs s) eqn:Hc; try (unfold step; rewrite Hc; exact H).
    destruct (step_open s Hc) as (H1 & H2 & H3 & H4 & _).
    destruct l; unfold closes, ws in *; cbv beta iota in *.
    + now rewrite H1, H3.
    + rewrite H4, H2. rewrite Hc in H. simpl in H. left.
      destruct H as [H | [_ H]]; [assumption | discriminate].
  - destruct s as [cw hw ? ? ? ? ? ? ?].
    destruct l, l', cw, hw; simpl in *; intuition (try lia; try discriminate).
  - destruct s as [cw hw ? ? ? ? ? ? ?].
    destruct l, l', cw, hw; simpl in *; intuition (try lia; try discriminate).
  - destruct s as [cw hw ? ? ? ? ? ? ?].
    destruct l, cw, hw; simpl in *; intuition (try lia; try discriminate).
Qed.

Lemma closed_once_run (l : leg) (es : list event) (s : session) :
  closed_once l s -> closed_once l (run s es).
Proof.
  revert s. induction es as [|e es IH]; intros s H; simpl; [assumption |].
  apply IH. now apply closed_once_step.
Qed.

Lemma closes_at_most_once (l : leg) (es : list event) :
  closes l (run init es) <= 1.
Proof.
  assert (H : closed_once l (run init es)).
  { apply closed_once_run. left. now destruct l. }
  destruct H as [-> | [-> _]]; lia.
Qed.

End ProxyFacts.

(** C3. The frames the client sends before the internal socket reports open
    are not delivered before it opens; when it opens they are delivered in
    the order the client sent them, each once, and the queue is empty; what
    is delivered afterwards are frames the client sent afterwards. *)
Theorem queued_frames_flushed_in_order (pre post : list Proxy.event) :
  Forall (fun e => Proxy.while_connecting e = true) pre ->
  Proxy.chromeSent (Proxy.run Proxy.init pre) = []
  /\ Proxy.chromeSent (Proxy.run Proxy.init (pre ++ [Proxy.ChromeOpen]))
     = Proxy.client_frames pre
  /\ Proxy.onceOpen (Proxy.run Proxy.init (pre ++ [Proxy.ChromeOpen])) = []
  /\ exists later,
       Proxy.chromeSent (Proxy.run Proxy.init (pre ++ Proxy.ChromeOpen :: post))
       = Proxy.client_frames pre ++ later
       /\ later `sublist_of` Proxy.client_frames post.
Proof.
  intros Hpre.
  destruct (connecting_queue pre Proxy.init Hpre eq_refl) as (Hc & Hsent & Hq).
  destruct (step_open (Proxy.run Proxy.init pre) Hc)
    as (_ & Hopen & _ & _ & Hempty & Hflush).
  simpl in Hsent, Hq. rewrite Hsent, Hq in Hflush. simpl in Hflush.
  repeat split.
  - exact Hsent.
  - rewrite run_app. exact Hflush.
  - rewrite run_app. exact Hempty.
  - change (pre ++ Proxy.ChromeOpen :: post)
      with (pre ++ [Proxy.ChromeOpen] ++ post).
    rewrite app_assoc, run_app, run_app.
    destruct (after_open_only_later post
                (Proxy.run (Proxy.run Proxy.init pre) [Proxy.ChromeOpen]))
      as (later & Hl & Hsub).
    + simpl. simpl in Hopen. rewrite Hopen. discriminate.
    + exists later. split; [| exact Hsub].
      rewrite Hl. simpl. simpl in Hflush. now rewrite Hflush.
Qed.

Lemma queued_frames_flushed_in_order_witness :
  let f1 := {| Proxy.data := "{id:1}"; Proxy.isBinary := false |} in
  let f2 := {| Proxy.data := "{id:2}"; Proxy.isBinary := true |} in
  let f3 := {| Proxy.data := "{id:3}"; Proxy.isBinary := false |} in
  let pre := [Proxy.ClientMessage f1; Proxy.ClientMessage f2] in
  let post := [Proxy.ClientMessage f3] in
  Forall (fun e => Proxy.while_connecting e = true) pre
  /\ (Proxy.chromeSent (Proxy.run Proxy.init pre) = []
      /\ Proxy.chromeSent (Proxy.run Proxy.init (pre ++ [Proxy.ChromeOpen]))
         = Proxy.client_frames pre
      /\ Proxy.onceOpen (Proxy.run Proxy.init (pre ++ [Proxy.ChromeOpen])) = []
      /\ exists later,
           Proxy.chromeSent
             (Proxy.run Proxy.init (pre ++ Proxy.ChromeOpen :: post))
           = Proxy.client_frames pre ++ later
           /\ later `sublist_of` Proxy.client_frames post).
Proof.
  intros f1 f2 f3 pre post.
  assert (H : Forall (fun e => Proxy.while_connecting e = true) pre)
    by (repeat constructor).
  split; [exact H | exact (queued_frames_flushed_in_order pre post H)].
Defined.

(** C4, as amended. In every relay, for every sequence of events, [cleanup]
    calls [close()] on each of the two sockets at most once; and when one leg
    closes or errors, the other leg is closed by that event if it is open at
    that moment, while a leg that is still connecting is left as it is. *)
Theorem cascade_closes_open_leg_once
    (es : list Proxy.event) (l : Proxy.leg) (e : Proxy.event) :
  Proxy.is_teardown_of l e = true ->
  (forall l' es', Proxy.closes l' (Proxy.run Proxy.init es') <= 1)
  /\ (Proxy.ws (Proxy.other l) (Proxy.run Proxy.init es) = Proxy.OPEN ->
      Proxy.ws (Proxy.other l) (Proxy.run Proxy.init (es ++ [e]))
      = Proxy.CLOSING
      /\ Proxy.closes (Proxy.other l) (Proxy.run Proxy.init es) = 0
      /\ Proxy.closes (Proxy.other l) (Proxy.run Proxy.init (es ++ [e])) = 1)
  /\ (Proxy.ws (Proxy.other l) (Proxy.run Proxy.init es) = Proxy.CONNECTING ->
      Proxy.ws (Proxy.other l) (Proxy.run Proxy.init (es ++ [e]))
      = Proxy.CONNECTING
      /\ Proxy.closes (Proxy.other l) (Proxy.run Proxy.init (es ++ [e])) = 0).
Proof.
  intros He. split; [intros l' es'; apply closes_at_most_once |].
  rewrite run_app.
  assert (Honce : Proxy.closed_once (Proxy.other l) (Proxy.run Proxy.init es)).
  { apply closed_once_run. left. now destruct l. }
  set (s := Proxy.run Proxy.init es) in *. clearbody s.
  unfold Proxy.closed_once in Honce.
  destruct s as [cw hw ? ? ? ? ? ? ?].
  destruct l, e as [f | f | | [] | [] | ]; try discriminate He;
    destruct cw, hw; simpl in *;
    (split; intros Hws; try discriminate Hws;
     intuition (try lia; try discriminate)).
Qed.

Lemma cascade_closes_open_leg_once_witness :
  Proxy.is_teardown_of Proxy.Client (Proxy.Close Proxy.Client) = true
  /\ ((forall l' es', Proxy.closes l' (Proxy.run Proxy.init es') <= 1)
      /\ (Proxy.ws (Proxy.other Proxy.Client)
            (Proxy.run Proxy.init [Proxy.ChromeOpen]) = Proxy.OPEN ->
          Proxy.ws (Proxy.other Proxy.Client)
            (Proxy.run Proxy.init
               ([Proxy.ChromeOpen] ++ [Proxy.Close Proxy.Client]))
          = Proxy.CLOSING
          /\ Proxy.closes (Proxy.other Proxy.Client)
               (Proxy.run Proxy.init [Proxy.ChromeOpen]) = 0
          /\ Proxy.closes (Proxy.other Proxy.Client)
               (Proxy.run Proxy.init
                  ([Proxy.ChromeOpen] ++ [Proxy.Close Proxy.Client])) = 1)
      /\ (Proxy.ws (Proxy.other Proxy.Client)
            (Proxy.run Proxy.init [Proxy.ChromeOpen]) = Proxy.CONNECTING ->
          Proxy.ws (Proxy.other Proxy.Client)
            (Proxy.run Proxy.init
               ([Proxy.ChromeOpen] ++ [Proxy.Close Proxy.Client]))
          = Proxy.CONNECTING
          /\ Proxy.closes (Proxy.other Proxy.Client)
               (Proxy.run Proxy.init
                  ([Proxy.ChromeOpen] ++ [Proxy.Close Proxy.Client])) = 0)).
Proof.
  split; [reflexivity |].
  exact (cascade_closes_open_leg_once [Proxy.ChromeOpen] Proxy.Client
           (Proxy.Close Proxy.Client) eq_refl).
Defined.

(** C4 fails as stated. The client leg closes while the internal leg is
    still connecting: [cleanup] does not close the internal socket, which
    then opens and is left open beside the closed client socket. *)
Lemma connecting_leg_is_not_closed :
  Proxy.chromeWs (Proxy.run Proxy.init [Proxy.Close Proxy.Client])
  = Proxy.CONNECTING
  /\ Proxy.chromeCloses (Proxy.run Proxy.init [Proxy.Close Proxy.Client]) = 0
  /\ Proxy.clientWs
       (Proxy.run Proxy.init [Proxy.Close Proxy.Client; Proxy.ChromeOpen])
     = Proxy.CLOSED
  /\ Proxy.chromeWs
       (Proxy.run Proxy.init [Proxy.Close Proxy.Client; Proxy.ChromeOpen])
     = Proxy.OPEN
  /\ Proxy.chromeCloses
       (Proxy.run Proxy.init [Proxy.Close Proxy.Client; Proxy.ChromeOpen]) = 0.
Proof. vm_compute. repeat split. Qed.

(** ** The supervisor and the reaper *)

Section SupervisorFacts.
Import Supervisor.

Lemma sup_run_app (st : state) (es1 es2 : list event) :
  run st (es1 ++ es2) = run (run st es1) es2.
Proof. apply fold_left_app. Qed.

(** *** Overlapping calls of [launchBrowser] *)

Lemma acquire_without_browser (n : nat) (st : state) :
  browser st = None ->
  launches (run st (replicate n Acquire)) = launches st + n
  /\ browser (run st (replicate n Acquire)) = None
  /\ calls (run st (replicate n Acquire)) = calls st ++ replicate n Launching.
Proof.
  revert st. induction n as [|n IH]; intros st Hb.
  - simpl. rewrite app_nil_r. repeat split; [lia | assumption].
  - change (run st (replicate (S n) Acquire))
      with (run (launchBrowser_begin st) (replicate n Acquire)).
    assert (Hst : browser (launchBrowser_begin st) = None
                  /\ launches (launchBrowser_begin st) = S (launches st)
                  /\ calls (launchBrowser_begin st) = calls st ++ [Launching]).
    { unfold launchBrowser_begin. now rewrite Hb. }
    destruct Hst as (Hb1 & Hl1 & Hc1).
    destruct (IH _ Hb1) as (H1 & H2 & H3).
    rewrite H1, H2, H3, Hl1, Hc1. repeat split; [lia |].
    now rewrite <- app_assoc.
Qed.

Lemma acquire_with_live_browser (st : state) (b : handle) :
  browser st = Some b ->
  let st' := run st [Acquire; ProbeDone (length (calls st)) true] in
  launches st' = launches st
  /\ calls st' = calls st ++ [Resolved (Some b)].
Proof.
  intros Hb. simpl. unfold launchBrowser_begin. rewrite Hb.
  unfold launchBrowser_probed. simpl.
  rewrite list_lookup_middle by reflexivity. simpl. split; [reflexivity |].
  rewrite insert_app_r_alt by lia.
  now rewrite Nat.sub_diag.
Qed.

(** *** One sweep of the reaper *)

Lemma sweep_page_session (now : Z) (n : nat) (reg : gmap string Z)
    (p : page) (k : string) :
  pg_session p = Some k ->
  sweep_page now n reg p
  = if closes_page now n (reg !! k) p then (delete k reg, true)
    else (reg, false).
Proof.
  intros Hk. unfold sweep_page, closes_page, idle. rewrite Hk.
  destruct (String.eqb (pg_url p) "about:blank" && (n <=? 1)%nat);
    [reflexivity |].
  destruct (reg !! k) as [t|]; [| reflexivity].
  destruct (truthy t && (now - t >? INACTIVE_TAB_TIMEOUT_MS)%Z);
    [| reflexivity].
  now destruct (pg_close_ok p).
Qed.






(** A sweep adds nothing to the registry. *)
Lemma sweep_pages_lookup_Some (now : Z) (n : nat) (pages : list page)
    (reg : gmap string Z) (k : string) (t : Z) :
  (sweep_pages now n reg pages).1 !! k = Some t -> reg !! k = Some t.
Proof.
  revert reg. induction pages as [|q rest IH]; intros reg; simpl.
  - intros H. exact H.
  - assert (Hq : (sweep_page now n reg q).1 !! k = Some t -> reg !! k = Some t).
    { destruct (pg_session q) as [k'|] eqn:Hs.
      - rewrite (sweep_page_session now n reg q k' Hs).
        destruct (closes_page now n (reg !! k') q); simpl; [| auto].
        now intros [_ H]%lookup_delete_Some.
      - unfold sweep_page. rewrite Hs. auto. }
    destruct (sweep_page now n reg q) as [reg1 c].
    specialize (IH reg1).
    destruct (sweep_pages now n reg1 rest) as [reg2 cr]. simpl in *.
    auto.
Qed.

(** A page the sweep closes has an identifier and a recorded timestamp. *)
Lemma sweep_pages_closed_recorded (now : Z) (n : nat) (pages : list page)
    (reg : gmap string Z) (p : page) :
  p ∈ (sweep_pages now n reg pages).2 ->
  exists k t, pg_session p = Some k /\ reg !! k = Some t.
Proof.
  revert reg. induction pages as [|q rest IH]; intros reg; simpl.
  - intros H. now apply elem_of_nil in H.
  - pose proof (sweep_pages_lookup_Some now n [q] reg) as Hkeep.
    simpl in Hkeep.
    assert (Hq : (sweep_page now n reg q).2 = true ->
                 exists k t, pg_session q = Some k /\ reg !! k = Some t).
    { destruct (pg_session q) as [k|] eqn:Hs.
      - rewrite (sweep_page_session now n reg q k Hs).
        unfold closes_page, idle. destruct (reg !! k) as [t|] eqn:Ht; [eauto |].
        destruct (negb (String.eqb (pg_url q) "about:blank" && (n <=? 1)%nat));
          simpl; discriminate.
      - unfold sweep_page. rewrite Hs. discriminate. }
    destruct (sweep_page now n reg q) as [reg1 c].
    specialize (IH reg1).
    destruct (sweep_pages now n reg1 rest) as [reg2 cr]. simpl in *.
    intros Hin.
    assert (Hcases : (c = true /\ p = q) \/ p ∈ cr).
    { destruct c; [apply elem_of_cons in Hin as [-> | Hin] |]; auto. }
    destruct Hcases as [[-> ->] | Hcr]; [now apply Hq |].
    destruct (IH Hcr) as (k & t & Hk & Ht).
    exists k, t. split; [exact Hk |]. now apply Hkeep.
Qed.

End SupervisorFacts.

(** C5, as amended. Every call of [launchBrowser] that begins while no
    browser is running performs a launch of its own: [n] calls that begin
    before any of their launches has completed perform [n] launches. Only a
    call that begins once a browser is running, and whose probe of it
    succeeds, performs none. *)
Theorem every_overlapping_call_launches (st : Supervisor.state) (n : nat) :
  Supervisor.browser st = None ->
  Supervisor.launches
    (Supervisor.run st (replicate n Supervisor.Acquire))
  = Supervisor.launches st + n
  /\ Supervisor.calls (Supervisor.run st (replicate n Supervisor.Acquire))
     = Supervisor.calls st ++ replicate n Supervisor.Launching
  /\ forall st' b,
       Supervisor.browser st' = Some b ->
       Supervisor.launches
         (Supervisor.run st'
            [Supervisor.Acquire;
             Supervisor.ProbeDone (length (Supervisor.calls st')) true])
       = Supervisor.launches st'.
Proof.
  intros Hb. destruct (acquire_without_browser n st Hb) as (H1 & _ & H3).
  repeat split; [exact H1 | exact H3 |].
  intros st' b Hb'. now destruct (acquire_with_live_browser st' b Hb').
Qed.

Lemma every_overlapping_call_launches_witness :
  Supervisor.browser Supervisor.init = None
  /\ (Supervisor.launches
        (Supervisor.run Supervisor.init (replicate 3 Supervisor.Acquire))
      = Supervisor.launches Supervisor.init + 3
      /\ Supervisor.calls
           (Supervisor.run Supervisor.init (replicate 3 Supervisor.Acquire))
         = Supervisor.calls Supervisor.init
           ++ replicate 3 Supervisor.Launching
      /\ forall st' b,
           Supervisor.browser st' = Some b ->
           Supervisor.launches
             (Supervisor.run st'
                [Supervisor.Acquire;
                 Supervisor.ProbeDone (length (Supervisor.calls st')) true])
           = Supervisor.launches st').
Proof.
  split; [reflexivity |].
  exact (every_overlapping_call_launches Supervisor.init 3 eq_refl).
Defined.

(** C5 fails as stated. Two calls that both begin before a browser is
    running each call [puppeteer.launch]; when both launches have completed
    two browser processes were started and [browser] holds the second. *)
Lemma two_overlapping_calls_launch_twice :
  Supervisor.launches
    (Supervisor.run Supervisor.init [Supervisor.Acquire; Supervisor.Acquire])
  = 2
  /\ Supervisor.launches
       (Supervisor.run Supervisor.init
          [Supervisor.Acquire; Supervisor.Acquire;
           Supervisor.LaunchDone 0 (Some 1); Supervisor.LaunchDone 1 (Some 2)])
     = 2
  /\ Supervisor.calls
       (Supervisor.run Supervisor.init
          [Supervisor.Acquire; Supervisor.Acquire;
           Supervisor.LaunchDone 0 (Some 1); Supervisor.LaunchDone 1 (Some 2)])
     = [Supervisor.Resolved (Some 1); Supervisor.Resolved (Some 2)]
  /\ Supervisor.browser
       (Supervisor.run Supervisor.init
          [Supervisor.Acquire; Supervisor.Acquire;
           Supervisor.LaunchDone 0 (Some 1); Supervisor.LaunchDone 1 (Some 2)])
     = Some 2.
Proof. repeat split. Qed.


(** C9. When the disconnect handler has run, in whatever state it found the
    server, the browser reference is null and the registry holds no entry. *)
Theorem disconnect_clears_everything
    (es : list Supervisor.event) (st : Supervisor.state) :
  let st' := Supervisor.run st (es ++ [Supervisor.Disconnected]) in
  Supervisor.browser st' = None
  /\ Supervisor.tabLastActivity st' = ∅
  /\ size (Supervisor.tabLastActivity st') = 0.
Proof.
  simpl. rewrite sup_run_app. simpl. repeat split.
Qed.

(** ** The HTTP front *)

Section HttpFacts.
Import Http.

Variable pathname : string -> option string.




End HttpFacts.

(** * Further properties of the code *)

(** ** The connection handler *)

Section ConnectionFacts.
Import Chars PathRegex Multiplexer.

Lemma targetUrl_of_any_rest (ds rest : string) :
  ds <> "" -> all is_digit ds = true ->
  targetUrl ("/" +:+ ds +:+ "/" +:+ rest)
  = Some ("ws://127.0.0.1:" +:+ ds +:+ "/" +:+ dot_star rest).
Proof.
  intros Hne Hds. unfold targetUrl, path_match.
  rewrite (str_app_cons "/"), str_app_nil_l. unfold span_digits.
  rewrite (span_app is_digit ds ("/" +:+ rest) Hds (slash_is_no_digit rest)).
  destruct ds as [|d ds]; [congruence |].
  now rewrite (str_app_cons "/"), str_app_nil_l.
Qed.

Lemma dot_star_fixed (rest : string) :
  all (fun c => negb (is_line_terminator c)) rest = true ->
  dot_star rest = rest.
Proof.
  induction rest as [|c s IH]; simpl; [reflexivity |].
  intros [Hc Hs]%andb_prop. apply negb_true_iff in Hc.
  now rewrite Hc, (IH Hs).
Qed.

End ConnectionFacts.

(** X2. Whatever the request path, a target the multiplexer selects is on
    the loopback address: it is [ws://127.0.0.1:], the digits that follow
    the first slash of the path, and the part of the path behind them. *)
Theorem target_is_always_loopback (path target : string) :
  Multiplexer.targetUrl path = Some target ->
  exists ds rest,
    ds <> "" /\ Chars.all Chars.is_digit ds = true
    /\ path = "/" +:+ ds +:+ "/" +:+ rest
    /\ target = "ws://127.0.0.1:" +:+ ds +:+ "/" +:+ PathRegex.dot_star rest.
Proof.
  intros Ht.
  assert (Hform : PathRegex.slash_digits_slash_rest path).
  { apply path_match_form. unfold Multiplexer.targetUrl in Ht.
    destruct (PathRegex.path_match path); congruence. }
  destruct Hform as (ds & rest & Hne & Hds & ->).
  exists ds, rest. repeat split; try assumption.
  rewrite (targetUrl_of_any_rest ds rest Hne Hds) in Ht. congruence.
Qed.

Lemma target_is_always_loopback_witness :
  Multiplexer.targetUrl "/9222/devtools/page/abc"
  = Some "ws://127.0.0.1:9222/devtools/page/abc"
  /\ exists ds rest,
       ds <> "" /\ Chars.all Chars.is_digit ds = true
       /\ "/9222/devtools/page/abc" = "/" +:+ ds +:+ "/" +:+ rest
       /\ "ws://127.0.0.1:9222/devtools/page/abc"
          = "ws://127.0.0.1:" +:+ ds +:+ "/" +:+ PathRegex.dot_star rest.
Proof.
  assert (H : Multiplexer.targetUrl "/9222/devtools/page/abc"
              = Some "ws://127.0.0.1:9222/devtools/page/abc") by reflexivity.
  split; [exact H |].
  exact (target_is_always_loopback _ _ H).
Defined.

(** X3. An endpoint on port 80 loses its port in the rewrite: for every
    plain path the public endpoint has an empty first segment, and the
    multiplexer rejects every path that begins with two slashes. *)
Theorem default_port_endpoint_is_unroutable (cfg : config) (rest tail : string) :
  Chars.all Chars.is_path_char rest = true ->
  Multiplexer.remapWebSocketEndpoint cfg ("ws://127.0.0.1:80/" +:+ rest)
  = Some ("wss://" +:+ Chars.template (PUBLIC_DOMAIN cfg) +:+ "//" +:+ rest)
  /\ Multiplexer.on_connection (Some ("//" +:+ tail))
     = [Multiplexer.ClientClose 1002 "Invalid WebSocket URL format"].
Proof.
  intros Hrest. split.
  - unfold Multiplexer.remapWebSocketEndpoint.
    change ("ws://127.0.0.1:80/" +:+ rest)
      with ("ws://127.0.0.1:" +:+ Url.decimal 80 +:+ "/" +:+ rest).
    rewrite (new_URL_endpoint 80 rest) by (try lia; assumption).
    reflexivity.
  - reflexivity.
Qed.

Lemma default_port_endpoint_is_unroutable_witness :
  Chars.all Chars.is_path_char "devtools/browser/abc" = true
  /\ (Multiplexer.remapWebSocketEndpoint
        {| AUTH_TOKEN := None; PUBLIC_DOMAIN := Some "ws.example.com" |}
        ("ws://127.0.0.1:80/" +:+ "devtools/browser/abc")
      = Some ("wss://" +:+ "ws.example.com" +:+ "//" +:+ "devtools/browser/abc")
      /\ Multiplexer.on_connection (Some ("//" +:+ "devtools/browser/abc"))
         = [Multiplexer.ClientClose 1002 "Invalid WebSocket URL format"]).
Proof.
  assert (H : Chars.all Chars.is_path_char "devtools/browser/abc" = true)
    by reflexivity.
  split; [exact H |].
  exact (default_port_endpoint_is_unroutable
           {| AUTH_TOKEN := None; PUBLIC_DOMAIN := Some "ws.example.com" |}
           "devtools/browser/abc" "devtools/browser/abc" H).
Defined.

(** ** Frames through the relay *)

Section RelayFacts.
Import Proxy.

Lemma client_frames_app (es1 es2 : list event) :
  client_frames (es1 ++ es2) = client_frames es1 ++ client_frames es2.
Proof.
  induction es1 as [|e es1 IH]; [reflexivity |].
  destruct e; simpl; now rewrite IH.
Qed.

Lemma flush_clientSent (fs : list frame) (s : session) :
  clientSent (fold_left queued_send fs s) = clientSent s.
Proof.
  revert s. induction fs as [|f fs IH]; intros s; simpl; [reflexivity |].
  now rewrite IH.
Qed.

Lemma step_open_clientSent (s : session) :
  clientSent (step s ChromeOpen) = clientSent s.
Proof.
  simpl. destruct (chromeWs s); try reflexivity.
  unfold emit_open. now rewrite flush_clientSent.
Qed.

Lemma step_open_not_connecting (s : session) :
  chromeWs s <> CONNECTING -> step s ChromeOpen = s.
Proof. intros H. simpl. now destruct (chromeWs s). Qed.

(** One event adds at most the frame it carries to what the client was
    sent. *)
Lemma client_sent_step (s : session) (e : event) :
  clientSent (step s e) = clientSent s
  \/ exists f, e = ChromeMessage f /\ clientSent (step s e) = clientSent s ++ [f].
Proof.
  destruct e as [f | f | | l | l | ].
  - left. simpl. unfold on_client_message. now destruct (is_open (chromeWs s)).
  - simpl. unfold on_chrome_message, ws_send.
    destruct (is_open (clientWs s)); simpl; eauto.
  - left. apply step_open_clientSent.
  - left. destruct s, l; reflexivity.
  - left. destruct s as [cw hw ? ? ? ? ? ? ?]. destruct l, cw, hw; reflexivity.
  - left. reflexivity.
Qed.

Lemma client_sent_run (es : list event) (s : session) :
  exists l, clientSent (run s es) = clientSent s ++ l
            /\ l `sublist_of` chrome_frames es.
Proof.
  revert s. induction es as [|e es IH]; intros s; simpl.
  - exists []. now rewrite app_nil_r.
  - destruct (IH (step s e)) as (l & Hl & Hsub).
    destruct (client_sent_step s e) as [He | (f & -> & He)].
    + exists l. rewrite Hl, He. split; [reflexivity |].
      destruct e; simpl; try assumption. now apply sublist_cons.
    + exists (f :: l). rewrite Hl, He, <- app_assoc. split; [reflexivity |].
      simpl. now apply sublist_skip.
Qed.

(** While no handler calls [cleanup] the client socket stays open and gets
    every frame of the internal socket. *)
Lemma client_sent_relaying (es : list event) (s : session) :
  Forall (fun e => relaying e = true) es -> clientWs s = OPEN ->
  clientSent (run s es) = clientSent s ++ chrome_frames es.
Proof.
  intros Hes. revert s. induction Hes as [|e es He _ IH]; intros s Hc; simpl.
  - now rewrite app_nil_r.
  - assert (Hstep : clientWs (step s e) = OPEN
                    /\ clientSent (step s e)
                       = clientSent s ++ match e with
                                         | ChromeMessage f => [f]
                                         | _ => []
                                         end).
    { destruct e as [f | f | | l | l | ]; try discriminate He.
      - simpl. unfold on_client_message.
        destruct (is_open (chromeWs s)); simpl; now rewrite app_nil_r.
      - simpl. unfold on_chrome_message, ws_send. now rewrite Hc.
      - rewrite step_open_clientSent, app_nil_r. split; [| reflexivity].
        destruct (chromeWs s) eqn:Hw;
          try (rewrite step_open_not_connecting by congruence; assumption).
        destruct (step_open s Hw) as (H1 & _). now rewrite H1. }
    destruct Hstep as [H1 H2]. rewrite (IH _ H1), H2, <- app_assoc.
    now destruct e.
Qed.

Lemma sent_so_far_step (s : session) (fs : list frame) (e : event) :
  sent_so_far s fs ->
  sent_so_far (step s e)
    (fs ++ match e with ClientMessage f => [f] | _ => [] end).
Proof.
  intros [(Hc & Hs & Hq) | (Hc & Hs)].
  - destruct e as [f | f | | l | l | ].
    + left. simpl. unfold on_client_message. rewrite Hc. simpl.
      now rewrite ?Hc, ?Hs, ?Hq.
    + left. rewrite app_nil_r. simpl. unfold on_chrome_message.
      now destruct (is_open (clientWs s)).
    + right. rewrite app_nil_r.
      destruct (step_open s Hc) as (_ & Ho & _ & _ & _ & Hf).
      rewrite Ho, Hf, Hs, Hq. split; [discriminate | reflexivity].
    + rewrite app_nil_r. destruct s as [cw hw ? ? ? ? ? ? ?]. simpl in *.
      subst. destruct l, cw; simpl;
        (left; now repeat split) || (right; split; [discriminate | apply sublist_nil_l]).
    + rewrite app_nil_r. destruct s as [cw hw ? ? ? ? ? ? ?]. simpl in *.
      subst. destruct l, cw; simpl;
        (left; now repeat split) || (right; split; [discriminate | apply sublist_nil_l]).
    + left. rewrite app_nil_r. destruct s as [cw hw ? ? ? ? ? ? ?].
      simpl in *. subst. now destruct cw.
  - right. destruct e as [f | f | | l | l | ].
    + simpl. unfold on_client_message, ws_send.
      destruct (chromeWs s) eqn:Hw; simpl; rewrite ?Hw;
        try congruence; (split; [congruence |]).
      * now apply sublist_app.
      * now apply sublist_inserts_r.
      * now apply sublist_inserts_r.
    + rewrite app_nil_r. simpl. unfold on_chrome_message.
      now destruct (is_open (clientWs s)).
    + rewrite app_nil_r. now rewrite step_open_not_connecting.
    + rewrite app_nil_r. destruct s as [cw hw ? ? ? ? ? ? ?]. simpl in *.
      destruct l, cw, hw; simpl; (split; [congruence | assumption]).
    + rewrite app_nil_r. destruct s as [cw hw ? ? ? ? ? ? ?]. simpl in *.
      destruct l, cw, hw; simpl; (split; [congruence | assumption]).
    + rewrite app_nil_r. destruct s as [cw hw ? ? ? ? ? ? ?]. simpl in *.
      destruct cw, hw; simpl; (split; [congruence | assumption]).
Qed.

Lemma sent_so_far_run (es : list event) (s : session) (fs : list frame) :
  sent_so_far s fs -> sent_so_far (run s es) (fs ++ client_frames es).
Proof.
  revert s fs. induction es as [|e es IH]; intros s fs H; simpl.
  - now rewrite app_nil_r.
  - apply (sent_so_far_step s fs e) in H. apply IH in H.
    rewrite <- app_assoc in H. now destruct e.
Qed.

(** Once the internal socket is closing or closed, nothing is sent to it
    any more; the frames of the client pile up behind ['open'] listeners that
    never run. *)
Lemma closing_internal_socket (es : list event) (s : session) :
  closing (chromeWs s) = true ->
  closing (chromeWs (run s es)) = true
  /\ chromeSent (run s es) = chromeSent s
  /\ onceOpen (run s es) = onceOpen s ++ client_frames es.
Proof.
  revert s. induction es as [|e es IH]; intros s Hc; simpl.
  - now rewrite app_nil_r.
  - assert (Hstep : closing (chromeWs (step s e)) = true
                    /\ chromeSent (step s e) = chromeSent s
                    /\ onceOpen (step s e)
                       = onceOpen s ++ match e with
                                       | ClientMessage f => [f]
                                       | _ => []
                                       end).
    { destruct s as [cw hw ? ? ? ? ? ? ?]. simpl in Hc.
      destruct e as [f | f | | l | l | ];
        try destruct l; destruct hw; try discriminate Hc; destruct cw;
        simpl; rewrite ?app_nil_r; auto. }
    destruct Hstep as (H1 & H2 & H3).
    destruct (IH _ H1) as (I1 & I2 & I3).
    rewrite I1, I2, I3, H2, H3, <- app_assoc. repeat split. now destruct e.
Qed.

End RelayFacts.

Section OpenRelayFacts.
Import Proxy.

(** Events without [cleanup] leave the client socket and the counts of
    [close()] calls alone. *)
Lemma relaying_step (s : session) (e : event) :
  relaying e = true ->
  clientWs (step s e) = clientWs s
  /\ clientCloses (step s e) = clientCloses s
  /\ chromeCloses (step s e) = chromeCloses s.
Proof.
  destruct e as [f | f | | l | l | ]; try discriminate; intros _.
  - simpl. unfold on_client_message. now destruct (is_open (chromeWs s)).
  - simpl. unfold on_chrome_message. now destruct (is_open (clientWs s)).
  - destruct (chromeWs s) eqn:Hw;
      try (now rewrite step_open_not_connecting by congruence).
    destruct (step_open s Hw) as (H1 & _ & H3 & H4 & _). auto.
Qed.

Lemma relaying_run (es : list event) (s : session) :
  Forall (fun e => relaying e = true) es ->
  clientWs (run s es) = clientWs s
  /\ clientCloses (run s es) = clientCloses s
  /\ chromeCloses (run s es) = chromeCloses s.
Proof.
  intros Hes. revert s. induction Hes as [|e es He _ IH]; intros s; simpl.
  - auto.
  - destruct (relaying_step s e He) as (H1 & H2 & H3).
    destruct (IH (step s e)) as (I1 & I2 & I3).
    rewrite I1, I2, I3. auto.
Qed.

(** On an open internal socket every frame of the client is sent at once. *)
Lemma open_relay_run (es : list event) (s : session) :
  Forall (fun e => relaying e = true) es -> chromeWs s = OPEN ->
  chromeWs (run s es) = OPEN
  /\ chromeSent (run s es) = chromeSent s ++ client_frames es.
Proof.
  intros Hes. revert s. induction Hes as [|e es He _ IH]; intros s Hw; simpl.
  - now rewrite app_nil_r.
  - assert (Hstep : chromeWs (step s e) = OPEN
                    /\ chromeSent (step s e)
                       = chromeSent s ++ match e with
                                         | ClientMessage f => [f]
                                         | _ => []
                                         end).
    { destruct e as [f | f | | l | l | ]; try discriminate He.
      - simpl. unfold on_client_message, ws_send. now rewrite Hw.
      - simpl. unfold on_chrome_message. rewrite app_nil_r.
        now destruct (is_open (clientWs s)).
      - rewrite step_open_not_connecting, app_nil_r by congruence. auto. }
    destruct Hstep as [H1 H2]. destruct (IH _ H1) as [I1 I2].
    rewrite I1, I2, H2, <- app_assoc. split; [reflexivity |]. now destruct e.
Qed.

(** A relay on which nothing closes or errors: either the internal socket
    has not opened and holds every frame of the client in its queue, or it
    has opened and was sent every one of them. *)
Lemma connecting_relay_run (es : list event) (s : session) :
  Forall (fun e => relaying e = true) es ->
  chromeWs s = CONNECTING -> chromeSent s = [] ->
  (~ In ChromeOpen es /\ chromeWs (run s es) = CONNECTING
   /\ chromeSent (run s es) = []
   /\ onceOpen (run s es) = onceOpen s ++ client_frames es)
  \/ (In ChromeOpen es /\ chromeWs (run s es) = OPEN
      /\ chromeSent (run s es) = onceOpen s ++ client_frames es).
Proof.
  intros Hes. revert s.
  induction Hes as [|e es He Hes IH]; intros s Hw Hs; simpl.
  - left. rewrite app_nil_r. auto.
  - destruct e as [f | f | | l | l | ]; try discriminate He.
    + assert (Hstep : chromeWs (step s (ClientMessage f)) = CONNECTING
                      /\ chromeSent (step s (ClientMessage f)) = []
                      /\ onceOpen (step s (ClientMessage f)) = onceOpen s ++ [f]).
      { simpl. unfold on_client_message. rewrite Hw. simpl. auto. }
      destruct Hstep as (H1 & H2 & H3).
      destruct (IH _ H1 H2) as [(Hn & I1 & I2 & I3) | (Hi & I1 & I2)].
      * left. rewrite I3, H3, <- app_assoc. repeat split; auto.
        intros [Hx | Hx]; [discriminate | contradiction].
      * right. rewrite I2, H3, <- app_assoc. auto.
    + assert (Hstep : chromeWs (step s (ChromeMessage f)) = CONNECTING
                      /\ chromeSent (step s (ChromeMessage f)) = []
                      /\ onceOpen (step s (ChromeMessage f)) = onceOpen s).
      { simpl. unfold on_chrome_message.
        destruct (is_open (clientWs s)); simpl; auto. }
      destruct Hstep as (H1 & H2 & H3).
      destruct (IH _ H1 H2) as [(Hn & I1 & I2 & I3) | (Hi & I1 & I2)].
      * left. rewrite I3, H3. repeat split; auto.
        intros [Hx | Hx]; [discriminate | contradiction].
      * right. rewrite I2, H3. auto.
    + right. destruct (step_open s Hw) as (_ & Ho & _ & _ & _ & Hf).
      destruct (open_relay_run es _ Hes Ho) as [I1 I2].
      rewrite I2, Hf, Hs. auto.
Qed.

End OpenRelayFacts.

(** X4. In both directions the relay only ever passes on frames it was
    given, in the order it was given them and each at most once, whatever
    events come: what the client is sent is a selection, in order, of the
    frames of the internal socket, and what the internal socket is sent is a
    selection, in order, of the frames of the client. *)
Theorem relay_never_reorders_frames (es : list Proxy.event) :
  Proxy.clientSent (Proxy.run Proxy.init es)
    `sublist_of` Proxy.chrome_frames es
  /\ Proxy.chromeSent (Proxy.run Proxy.init es)
       `sublist_of` Proxy.client_frames es.
Proof.
  split.
  - destruct (client_sent_run es Proxy.init) as (l & Hl & Hsub).
    simpl in Hl. now rewrite Hl.
  - assert (H : Proxy.sent_so_far Proxy.init []) by (left; auto).
    apply (sent_so_far_run es) in H. simpl in H.
    destruct H as [(_ & -> & _) | (_ & H)]; [apply sublist_nil_l | exact H].
Qed.

(** X5. On a relay where neither leg closes or errors no frame is lost: the
    client was sent every frame of the internal socket; if the internal
    socket has opened it was sent every frame of the client, the queued ones
    first; if it has not, it was sent nothing and the queue holds them all.
    No [close()] was called. *)
Theorem undisturbed_relay_loses_no_frame (es : list Proxy.event) :
  Forall (fun e => Proxy.relaying e = true) es ->
  let s := Proxy.run Proxy.init es in
  Proxy.clientSent s = Proxy.chrome_frames es
  /\ (In Proxy.ChromeOpen es ->
      Proxy.chromeSent s = Proxy.client_frames es)
  /\ (~ In Proxy.ChromeOpen es ->
      Proxy.chromeSent s = [] /\ Proxy.onceOpen s = Proxy.client_frames es)
  /\ Proxy.clientCloses s = 0 /\ Proxy.chromeCloses s = 0.
Proof.
  intros Hes s. subst s.
  destruct (relaying_run es Proxy.init Hes) as (_ & Hc1 & Hc2).
  split; [exact (client_sent_relaying es Proxy.init Hes eq_refl) |].
  destruct (connecting_relay_run es Proxy.init Hes eq_refl eq_refl)
    as [(Hn & _ & H1 & H2) | (Hi & _ & H1)]; simpl in *.
  - split; [intros Hi; contradiction |]. split; [intros _; now split |].
    now split.
  - split; [intros _; exact H1 |]. split; [intros Hn; contradiction |].
    now split.
Qed.

Lemma undisturbed_relay_loses_no_frame_witness :
  let f1 := {| Proxy.data := "{id:1}"; Proxy.isBinary := false |} in
  let f2 := {| Proxy.data := "{id:2}"; Proxy.isBinary := false |} in
  let r1 := {| Proxy.data := "{id:1,result:{}}"; Proxy.isBinary := false |} in
  let es := [Proxy.ClientMessage f1; Proxy.ChromeOpen; Proxy.ChromeMessage r1;
             Proxy.ClientMessage f2] in
  Forall (fun e => Proxy.relaying e = true) es
  /\ (Proxy.clientSent (Proxy.run Proxy.init es) = Proxy.chrome_frames es
      /\ (In Proxy.ChromeOpen es ->
          Proxy.chromeSent (Proxy.run Proxy.init es) = Proxy.client_frames es)
      /\ (~ In Proxy.ChromeOpen es ->
          Proxy.chromeSent (Proxy.run Proxy.init es) = []
          /\ Proxy.onceOpen (Proxy.run Proxy.init es) = Proxy.client_frames es)
      /\ Proxy.clientCloses (Proxy.run Proxy.init es) = 0
      /\ Proxy.chromeCloses (Proxy.run Proxy.init es) = 0).
Proof.
  intros f1 f2 r1 es.
  assert (H : Forall (fun e => Proxy.relaying e = true) es)
    by (repeat constructor).
  split; [exact H | exact (undisturbed_relay_loses_no_frame es H)].
Defined.

(** X6. Once the internal socket is closing or closed, no frame is sent to
    it any more, whatever events follow: each later frame of the client only
    adds a listener for an ['open'] event that cannot come. *)
Theorem no_frame_after_internal_close (before after : list Proxy.event) :
  Proxy.closing (Proxy.chromeWs (Proxy.run Proxy.init before)) = true ->
  Proxy.chromeSent (Proxy.run Proxy.init (before ++ after))
  = Proxy.chromeSent (Proxy.run Proxy.init before)
  /\ Proxy.onceOpen (Proxy.run Proxy.init (before ++ after))
     = Proxy.onceOpen (Proxy.run Proxy.init before)
       ++ Proxy.client_frames after.
Proof.
  intros Hc. rewrite run_app.
  now destruct (closing_internal_socket after _ Hc) as (_ & H1 & H2).
Qed.

Lemma no_frame_after_internal_close_witness :
  let f := {| Proxy.data := "{id:7}"; Proxy.isBinary := false |} in
  let before := [Proxy.ChromeOpen; Proxy.Close Proxy.Chrome] in
  let after := [Proxy.ClientMessage f] in
  Proxy.closing (Proxy.chromeWs (Proxy.run Proxy.init before)) = true
  /\ (Proxy.chromeSent (Proxy.run Proxy.init (before ++ after))
      = Proxy.chromeSent (Proxy.run Proxy.init before)
      /\ Proxy.onceOpen (Proxy.run Proxy.init (before ++ after))
         = Proxy.onceOpen (Proxy.run Proxy.init before)
           ++ Proxy.client_frames after).
Proof.
  intros f before after.
  assert (H : Proxy.closing (Proxy.chromeWs (Proxy.run Proxy.init before)) = true)
    by reflexivity.
  split; [exact H | exact (no_frame_after_internal_close before after H)].
Defined.

(** X7. When the internal connection fails before it opens (an ['error'] on
    the connecting socket), the client socket is closed, by one call of
    [close()]; the frames the client had sent are never delivered, nor is
    any later one, and [close()] is not called on the internal socket. *)
Theorem upstream_failure_closes_client
    (fs : list Proxy.frame) (after : list Proxy.event) :
  let s := Proxy.run Proxy.init
             (map Proxy.ClientMessage fs ++ [Proxy.Error Proxy.Chrome]) in
  Proxy.clientWs s = Proxy.CLOSING
  /\ Proxy.clientCloses s = 1
  /\ Proxy.chromeCloses s = 0
  /\ Proxy.chromeSent (Proxy.run s after) = [].
Proof.
  intros s. subst s. rewrite run_app.
  assert (Hrel : Forall (fun e => Proxy.relaying e = true)
                   (map Proxy.ClientMessage fs)).
  { induction fs as [|f fs IH]; constructor; auto. }
  destruct (relaying_run _ Proxy.init Hrel) as (Hcw & Hcc & Hhc).
  destruct (connecting_relay_run _ Proxy.init Hrel eq_refl eq_refl)
    as [(_ & Hw & Hs & _) | (Hin & _)].
  - set (s0 := Proxy.run Proxy.init (map Proxy.ClientMessage fs)) in *.
    clearbody s0. destruct s0 as [cw hw ? ? sent ? cc hc ?].
    simpl in Hcw, Hcc, Hhc, Hw, Hs. subst. simpl.
    repeat split.
    match goal with
    | |- Proxy.chromeSent (Proxy.run ?s1 after) = [] =>
        destruct (closing_internal_socket after s1 eq_refl) as (_ & H & _);
        exact H
    end.
  - apply in_map_iff in Hin as [f [Hf _]]. discriminate Hf.
Qed.

(** ** Launching and relaunching *)

Section LaunchFacts.
Import Supervisor.

Lemma probing_app (cs1 cs2 : list call) :
  probing (cs1 ++ cs2) = probing cs1 + probing cs2.
Proof.
  induction cs1 as [|c cs1 IH]; [reflexivity |].
  destruct c; simpl; now rewrite IH.
Qed.

Lemma probing_insert_done (cs : list call) (i : nat) (c : call) :
  cs !! i = Some Probing -> c <> Probing ->
  S (probing (<[i := c]> cs)) = probing cs.
Proof.
  revert i. induction cs as [|x cs IH]; intros i Hi Hc; [discriminate |].
  destruct i as [|i]; simpl in *.
  - injection Hi as ->. now destruct c.
  - specialize (IH i Hi Hc). destruct x; simpl; lia.
Qed.

Lemma probing_insert_same (cs : list call) (i : nat) (c : call) :
  cs !! i = Some Launching -> c <> Probing ->
  probing (<[i := c]> cs) = probing cs.
Proof.
  revert i. induction cs as [|x cs IH]; intros i Hi Hc; [discriminate |].
  destruct i as [|i]; simpl in *.
  - injection Hi as ->. now destruct c.
  - specialize (IH i Hi Hc). destruct x; simpl; lia.
Qed.

(** Launches and pending probes together grow by one per call, and by
    nothing else. *)
Lemma launches_step (st : state) (e : event) :
  launches (step st e) + probing (calls (step st e))
  <= launches st + probing (calls st) + acquires [e].
Proof.
  destruct e as [ | i ok | i r | | ty sess now hp | id now | ty sess
                | now pages ]; simpl.
  - unfold launchBrowser_begin. destruct (browser st); simpl;
      rewrite probing_app; simpl; lia.
  - unfold launchBrowser_probed.
    destruct (calls st !! i) as [[]|] eqn:Hi; try lia.
    destruct ok; simpl.
    + assert (Hne : Resolved (browser st) <> Probing) by discriminate.
      pose proof (probing_insert_done (calls st) i _ Hi Hne). lia.
    + assert (Hne : Launching <> Probing) by discriminate.
      pose proof (probing_insert_done (calls st) i _ Hi Hne). lia.
  - unfold launchBrowser_launched.
    destruct (calls st !! i) as [[]|] eqn:Hi; try lia.
    destruct r as [b|]; simpl.
    + rewrite (probing_insert_same (calls st) i (Resolved (Some b)) Hi); [lia | discriminate].
    + rewrite (probing_insert_same (calls st) i Rejected Hi); [lia | discriminate].
  - lia.
  - unfold on_targetcreated. destruct sess; [destruct (is_page ty) |]; simpl; lia.
  - unfold on_request. case_decide; simpl; lia.
  - unfold on_targetdestroyed. destruct sess; [destruct (is_page ty) |]; simpl; lia.
  - unfold cleanupInactiveTabs. destruct (browser st); [| simpl; lia].
    destruct (sweep_pages now (length pages) (tabLastActivity st) pages).
    simpl. lia.
Qed.

Lemma acquires_cons (e : event) (es : list event) :
  acquires (e :: es) = acquires [e] + acquires es.
Proof. now destruct e. Qed.

Lemma launches_run (es : list event) (st : state) :
  launches (run st es) + probing (calls (run st es))
  <= launches st + probing (calls st) + acquires es.
Proof.
  revert st. induction es as [|e es IH]; intros st; [simpl; lia |].
  rewrite acquires_cons.
  change (run st (e :: es)) with (run (step st e) es).
  pose proof (IH (step st e)). pose proof (launches_step st e). lia.
Qed.

(** A call that finds a browser whose probe fails, up to the end of its
    launch. *)
Lemma probe_failure_relaunch (st : state) (old new : handle) :
  browser st = Some old ->
  let st' := run st [Acquire; ProbeDone (length (calls st)) false;
                     LaunchDone (length (calls st)) (Some new)] in
  browser st' = Some new
  /\ calls st' = calls st ++ [Resolved (Some new)]
  /\ launches st' = S (launches st)
  /\ tabLastActivity st' = tabLastActivity st.
Proof.
  intros Hb. simpl.
  unfold launchBrowser_begin. rewrite Hb.
  unfold launchBrowser_probed. simpl.
  rewrite list_lookup_middle by reflexivity. simpl.
  unfold launchBrowser_launched. simpl.
  rewrite insert_app_r_alt by lia. rewrite Nat.sub_diag. simpl.
  rewrite list_lookup_middle by reflexivity. simpl.
  rewrite insert_app_r_alt by lia. rewrite Nat.sub_diag. simpl.
  repeat split.
Qed.

End LaunchFacts.

(** X8. However the calls of [launchBrowser], the answers of the engine and
    the other events interleave, the browser is launched at most once per
    call: the number of launches never exceeds the number of calls. *)
Theorem launches_bounded_by_calls (es : list Supervisor.event) :
  Supervisor.launches (Supervisor.run Supervisor.init es)
  <= Supervisor.acquires es.
Proof.
  pose proof (launches_run es Supervisor.init) as H. simpl in H. lia.
Qed.

(** X9. A launch that fails leaves the server without a browser and the
    call rejected, and nothing else changed; the next call launches again. *)
Theorem failed_launch_is_retried (st : Supervisor.state) :
  Supervisor.browser st = None ->
  let i := length (Supervisor.calls st) in
  let st1 := Supervisor.run st
               [Supervisor.Acquire; Supervisor.LaunchDone i None] in
  let st2 := Supervisor.step st1 Supervisor.Acquire in
  Supervisor.browser st1 = None
  /\ Supervisor.calls st1 = Supervisor.calls st ++ [Supervisor.Rejected]
  /\ Supervisor.launches st1 = S (Supervisor.launches st)
  /\ Supervisor.tabLastActivity st1 = Supervisor.tabLastActivity st
  /\ Supervisor.launches st2 = S (S (Supervisor.launches st))
  /\ Supervisor.calls st2
     = Supervisor.calls st
       ++ [Supervisor.Rejected; Supervisor.Launching].
Proof.
  intros Hb i st1 st2. subst i st1 st2. simpl.
  unfold Supervisor.launchBrowser_begin at 1 2 3 4 5 6 7 8. rewrite Hb.
  unfold Supervisor.launchBrowser_launched. simpl.
  rewrite list_lookup_middle by reflexivity. simpl.
  rewrite insert_app_r_alt by lia. rewrite Nat.sub_diag. simpl.
  rewrite <- app_assoc. repeat split.
Qed.

Lemma failed_launch_is_retried_witness :
  Supervisor.browser Supervisor.init = None
  /\ (Supervisor.browser
        (Supervisor.run Supervisor.init
           [Supervisor.Acquire; Supervisor.LaunchDone 0 None]) = None
      /\ Supervisor.calls
           (Supervisor.run Supervisor.init
              [Supervisor.Acquire; Supervisor.LaunchDone 0 None])
         = Supervisor.calls Supervisor.init ++ [Supervisor.Rejected]
      /\ Supervisor.launches
           (Supervisor.run Supervisor.init
              [Supervisor.Acquire; Supervisor.LaunchDone 0 None])
         = S (Supervisor.launches Supervisor.init)
      /\ Supervisor.tabLastActivity
           (Supervisor.run Supervisor.init
              [Supervisor.Acquire; Supervisor.LaunchDone 0 None])
         = Supervisor.tabLastActivity Supervisor.init
      /\ Supervisor.launches
           (Supervisor.step
              (Supervisor.run Supervisor.init
                 [Supervisor.Acquire; Supervisor.LaunchDone 0 None])
              Supervisor.Acquire)
         = S (S (Supervisor.launches Supervisor.init))
      /\ Supervisor.calls
           (Supervisor.step
              (Supervisor.run Supervisor.init
                 [Supervisor.Acquire; Supervisor.LaunchDone 0 None])
              Supervisor.Acquire)
         = Supervisor.calls Supervisor.init
           ++ [Supervisor.Rejected; Supervisor.Launching]).
Proof.
  split; [reflexivity |].
  exact (failed_launch_is_retried Supervisor.init eq_refl).
Defined.

(** X10. A call that finds a browser whose probe fails launches a new one;
    when that launch completes the new browser replaces the old one and is
    what the call returns.  The registry is not touched: the entries of the
    old browser stay until its ['disconnected'] event. *)
Theorem dead_browser_is_replaced
    (st : Supervisor.state) (old new : Supervisor.handle) :
  Supervisor.browser st = Some old ->
  let i := length (Supervisor.calls st) in
  let st' := Supervisor.run st
               [Supervisor.Acquire; Supervisor.ProbeDone i false;
                Supervisor.LaunchDone i (Some new)] in
  Supervisor.browser st' = Some new
  /\ Supervisor.calls st'
     = Supervisor.calls st ++ [Supervisor.Resolved (Some new)]
  /\ Supervisor.launches st' = S (Supervisor.launches st)
  /\ Supervisor.tabLastActivity st' = Supervisor.tabLastActivity st.
Proof.
  intros Hb i st'. subst i st'. exact (probe_failure_relaunch st old new Hb).
Qed.

Lemma dead_browser_is_replaced_witness :
  let st := Supervisor.run Supervisor.init
              [Supervisor.Acquire; Supervisor.LaunchDone 0 (Some 1);
               Supervisor.TargetCreated Supervisor.PageTarget (Some "A") 1000
                 true] in
  let st' := Supervisor.run st
               [Supervisor.Acquire;
                Supervisor.ProbeDone (length (Supervisor.calls st)) false;
                Supervisor.LaunchDone (length (Supervisor.calls st)) (Some 2)] in
  Supervisor.browser st = Some 1
  /\ (Supervisor.browser st' = Some 2
      /\ Supervisor.calls st'
         = Supervisor.calls st ++ [Supervisor.Resolved (Some 2)]
      /\ Supervisor.launches st' = S (Supervisor.launches st)
      /\ Supervisor.tabLastActivity st' = Supervisor.tabLastActivity st).
Proof.
  intros st st'. split; [reflexivity |].
  exact (dead_browser_is_replaced st 1 2 eq_refl).
Defined.

(** ** The registry and the sweep *)

Section RegistryFacts.
Import Supervisor.

Lemma created_ids_cons (e : event) (es : list event) :
  created_ids (e :: es) = created_ids [e] ∪ created_ids es.
Proof.
  destruct e as [ | | | | [] [k|] ? ? | | | ]; simpl; set_solver.
Qed.

Lemma sweep_pages_dom (now : Z) (n : nat) (pages : list page)
    (reg : gmap string Z) :
  dom (sweep_pages now n reg pages).1 ⊆ dom reg.
Proof.
  intros k [t Ht]%elem_of_dom. apply elem_of_dom. exists t.
  now apply (sweep_pages_lookup_Some now n pages).
Qed.

(** One event adds to the registry, and to the pages with a request
    listener, at most the identifier of the page target it creates. *)
Lemma keys_step (st : state) (e : event) (G : gset string) :
  dom (tabLastActivity st) ⊆ G -> observers st ⊆ G ->
  dom (tabLastActivity (step st e)) ⊆ G ∪ created_ids [e]
  /\ observers (step st e) ⊆ G ∪ created_ids [e].
Proof.
  intros Hd Ho.
  destruct e as [ | i ok | i r | | ty sess now hp | id now | ty sess
                | now pages ]; simpl.
  - unfold launchBrowser_begin. destruct (browser st); simpl; set_solver.
  - unfold launchBrowser_probed.
    destruct (calls st !! i) as [[]|]; try destruct ok; simpl; set_solver.
  - unfold launchBrowser_launched.
    destruct (calls st !! i) as [[]|]; try destruct r; simpl; set_solver.
  - rewrite dom_empty_L. set_solver.
  - unfold on_targetcreated.
    destruct sess as [k|]; destruct ty; try destruct hp; simpl;
      rewrite ?dom_insert_L; set_solver.
  - unfold on_request. case_decide; simpl; rewrite ?dom_insert_L; set_solver.
  - unfold on_targetdestroyed.
    destruct sess as [k|]; destruct ty; simpl; rewrite ?dom_delete_L;
      set_solver.
  - unfold cleanupInactiveTabs. destruct (browser st); [| set_solver].
    pose proof (sweep_pages_dom now (length pages) pages (tabLastActivity st)).
    destruct (sweep_pages now (length pages) (tabLastActivity st) pages).
    simpl in *. set_solver.
Qed.

Lemma keys_run (es : list event) (st : state) (G : gset string) :
  dom (tabLastActivity st) ⊆ G -> observers st ⊆ G ->
  dom (tabLastActivity (run st es)) ⊆ G ∪ created_ids es
  /\ observers (run st es) ⊆ G ∪ created_ids es.
Proof.
  revert st G. induction es as [|e es IH]; intros st G Hd Ho.
  - simpl. set_solver.
  - destruct (keys_step st e G Hd Ho) as [Hd1 Ho1].
    destruct (IH (step st e) _ Hd1 Ho1) as [Hd2 Ho2].
    rewrite created_ids_cons.
    change (run st (e :: es)) with (run (step st e) es). set_solver.
Qed.

Lemma sweep_pages_sublist (now : Z) (n : nat) (pages : list page)
    (reg : gmap string Z) :
  (sweep_pages now n reg pages).2 `sublist_of` pages.
Proof.
  revert reg. induction pages as [|q rest IH]; intros reg; simpl.
  - constructor.
  - destruct (sweep_page now n reg q) as [reg1 c].
    specialize (IH reg1).
    destruct (sweep_pages now n reg1 rest) as [reg2 cr]. simpl in *.
    destruct c; [now apply sublist_skip | now apply sublist_cons].
Qed.

(** An entry that is gone after the loop belonged to a page the loop
    closed. *)
Lemma sweep_pages_removed (now : Z) (n : nat) (pages : list page)
    (reg : gmap string Z) (k : string) (t : Z) :
  reg !! k = Some t -> (sweep_pages now n reg pages).1 !! k = None ->
  exists p, p ∈ (sweep_pages now n reg pages).2 /\ pg_session p = Some k.
Proof.
  revert reg. induction pages as [|q rest IH]; intros reg Hk; simpl.
  - congruence.
  - assert (Hq : (sweep_page now n reg q).1 !! k = Some t
                 \/ ((sweep_page now n reg q).2 = true
                     /\ pg_session q = Some k)).
    { destruct (pg_session q) as [k'|] eqn:Hs.
      - rewrite (sweep_page_session now n reg q k' Hs).
        destruct (closes_page now n (reg !! k') q); simpl; [| auto].
        destruct (decide (k' = k)) as [-> | Hne]; [auto |].
        left. now rewrite lookup_delete_ne.
      - unfold sweep_page. rewrite Hs. auto. }
    destruct (sweep_page now n reg q) as [reg1 c]. simpl in Hq.
    specialize (IH reg1).
    destruct (sweep_pages now n reg1 rest) as [reg2 cr]. simpl in *.
    intros Hgone. destruct Hq as [Hkeep | [-> Hs]].
    + destruct (IH Hkeep Hgone) as (p & Hp & Hps).
      exists p. split; [| exact Hps]. destruct c; [now right | exact Hp].
    + exists q. split; [now left | exact Hs].
Qed.

End RegistryFacts.

(** X11. Every key of the registry, and every identifier with a request
    listener, is an identifier under which a target-created event of kind
    page was handled: no other event puts a key into the registry. *)
Theorem registry_keys_were_created (es : list Supervisor.event) :
  dom (Supervisor.tabLastActivity (Supervisor.run Supervisor.init es))
    ⊆ Supervisor.created_ids es
  /\ Supervisor.observers (Supervisor.run Supervisor.init es)
       ⊆ Supervisor.created_ids es.
Proof.
  destruct (keys_run es Supervisor.init ∅) as [Hd Ho].
  - simpl. rewrite dom_empty_L. set_solver.
  - simpl. set_solver.
  - split; set_solver.
Qed.

(** X12. A sweep of the reaper closes pages in the order of the list, each
    at most once; it adds no entry to the registry and changes no timestamp;
    an entry it removes is that of a page it closed; the browser reference
    is left as it was; and without a browser the sweep does nothing. *)
Theorem sweep_only_removes_closed_pages
    (st : Supervisor.state) (now : Z) (pages : list Supervisor.page) :
  let swept := Supervisor.cleanupInactiveTabs now pages st in
  snd swept `sublist_of` pages
  /\ (forall k t,
         Supervisor.tabLastActivity (fst swept) !! k = Some t ->
         Supervisor.tabLastActivity st !! k = Some t)
  /\ (forall k t,
         Supervisor.tabLastActivity st !! k = Some t ->
         Supervisor.tabLastActivity (fst swept) !! k = None ->
         exists p, p ∈ snd swept /\ Supervisor.pg_session p = Some k)
  /\ Supervisor.browser (fst swept) = Supervisor.browser st
  /\ (Supervisor.browser st = None -> swept = (st, [])).
Proof.
  intros swept. subst swept. unfold Supervisor.cleanupInactiveTabs.
  destruct (Supervisor.browser st) as [b|] eqn:Hb.
  - pose proof (sweep_pages_sublist now (length pages) pages
                  (Supervisor.tabLastActivity st)) as H1.
    pose proof (sweep_pages_lookup_Some now (length pages) pages
                  (Supervisor.tabLastActivity st)) as H2.
    pose proof (sweep_pages_removed now (length pages) pages
                  (Supervisor.tabLastActivity st)) as H3.
    destruct (Supervisor.sweep_pages now (length pages)
                (Supervisor.tabLastActivity st) pages) as [reg closed].
    simpl in *. repeat split; auto. discriminate.
  - simpl. repeat split; auto.
    + apply sublist_nil_l.
    + intros k t H1 H2. congruence.
Qed.



(** ** Requests *)

(** X16. An authorized request for [/browser], when the engine hands over a
    browser whose endpoint is on a port other than 80 with a plain path,
    is answered 200 with the rewritten endpoint and the version; a
    connection to the path of that endpoint is relayed to the endpoint of
    the browser.  When launching failed the answer is 500. *)
Theorem browser_request_yields_routable_endpoint
    (pathname : string -> option string) (cfg : config)
    (st : Supervisor.state) (req : Http.request)
    (n : N) (rest version : string) :
  Http.truthy (Http.req_url req) = true ->
  Http.authorized cfg (Http.authorization req) = true ->
  pathname (Multiplexer.request_path (Http.req_url req)) = Some "/browser" ->
  (n <= 65535)%N -> n <> 80%N ->
  Chars.all Chars.is_path_char rest = true ->
  Http.handler pathname cfg st
    (Some ("ws://127.0.0.1:" +:+ Url.decimal n +:+ "/" +:+ rest, version)) req
  = {| Http.statusCode := 200;
       Http.content :=
         Http.BrowserBody
           ("wss://" +:+ Chars.template (PUBLIC_DOMAIN cfg) +:+ "/"
            +:+ Url.decimal n +:+ "/" +:+ rest)
           version |}
  /\ Multiplexer.on_connection (Some ("/" +:+ Url.decimal n +:+ "/" +:+ rest))
     = [Multiplexer.NewWS
          ("ws://127.0.0.1:" +:+ Url.decimal n +:+ "/" +:+ rest)
          {| Multiplexer.perMessageDeflate := false;
             Multiplexer.handshakeTimeout := 5000;
             Multiplexer.maxPayload := 52428800 |}]
  /\ Http.handler pathname cfg st None req
     = {| Http.statusCode := 500;
          Http.content := Http.ErrorBody "Failed to launch browser" |}.
Proof.
  intros Hurl Hauth Hpath Hn H80 Hrest.
  unfold Http.handler, Http.route. rewrite Hurl, Hauth, Hpath. simpl.
  unfold Multiplexer.remapWebSocketEndpoint.
  rewrite (new_URL_endpoint n rest Hn Hrest). simpl.
  apply N.eqb_neq in H80. unfold Url.ws_default_port. rewrite H80.
  split; [reflexivity |]. split; [| reflexivity].
  now rewrite (on_connection_endpoint n rest Hrest),
    (ws_accepts_endpoint n rest Hn Hrest).
Qed.

Lemma browser_request_yields_routable_endpoint_witness :
  let cfg := {| AUTH_TOKEN := Some "secret";
                PUBLIC_DOMAIN := Some "ws.example.com" |} in
  let req := {| Http.req_url := Some "/browser";
                Http.authorization := Some "Bearer secret" |} in
  let rest := "devtools/browser/3a95e2df" in
  Http.truthy (Http.req_url req) = true
  /\ Http.authorized cfg (Http.authorization req) = true
  /\ Some (Multiplexer.request_path (Http.req_url req)) = Some "/browser"
  /\ (41683 <= 65535)%N /\ 41683%N <> 80%N
  /\ Chars.all Chars.is_path_char rest = true
  /\ (Http.handler Some cfg Supervisor.init
        (Some ("ws://127.0.0.1:" +:+ Url.decimal 41683 +:+ "/" +:+ rest,
               "Chrome/130.0.6723.116")) req
      = {| Http.statusCode := 200;
           Http.content :=
             Http.BrowserBody
               ("wss://" +:+ Chars.template (PUBLIC_DOMAIN cfg) +:+ "/"
                +:+ Url.decimal 41683 +:+ "/" +:+ rest)
               "Chrome/130.0.6723.116" |}
      /\ Multiplexer.on_connection
           (Some ("/" +:+ Url.decimal 41683 +:+ "/" +:+ rest))
         = [Multiplexer.NewWS
              ("ws://127.0.0.1:" +:+ Url.decimal 41683 +:+ "/" +:+ rest)
              {| Multiplexer.perMessageDeflate := false;
                 Multiplexer.handshakeTimeout := 5000;
                 Multiplexer.maxPayload := 52428800 |}]
      /\ Http.handler Some cfg Supervisor.init None req
         = {| Http.statusCode := 500;
              Http.content := Http.ErrorBody "Failed to launch browser" |}).
Proof.
  intros cfg req rest.
  assert (H1 : Http.truthy (Http.req_url req) = true) by reflexivity.
  assert (H2 : Http.authorized cfg (Http.authorization req) = true)
    by reflexivity.
  assert (H3 : Some (Multiplexer.request_path (Http.req_url req))
               = Some "/browser") by reflexivity.
  assert (H4 : (41683 <= 65535)%N) by lia.
  assert (H5 : 41683%N <> 80%N) by lia.
  assert (H6 : Chars.all Chars.is_path_char rest = true) by reflexivity.
  split; [exact H1 |]. split; [exact H2 |]. split; [exact H3 |].
  split; [exact H4 |]. split; [exact H5 |]. split; [exact H6 |].
  exact (browser_request_yields_routable_endpoint Some cfg Supervisor.init req
           41683 rest "Chrome/130.0.6723.116" H1 H2 H3 H4 H5 H6).
Defined.

(** X17. An authorized request for [/status] is answered 200 with the
    state of the supervisor: connected exactly when the browser reference is
    set, and the number of entries of the registry.  Before any launch, and
    right after a disconnect whatever came before, that is disconnected with
    no tabs. *)
Theorem status_reports_supervisor
    (pathname : string -> option string) (cfg : config)
    (acquired : option (string * string)) (req : Http.request)
    (st : Supervisor.state) (es : list Supervisor.event) :
  Http.truthy (Http.req_url req) = true ->
  Http.authorized cfg (Http.authorization req) = true ->
  pathname (Multiplexer.request_path (Http.req_url req)) = Some "/status" ->
  Http.handler pathname cfg st acquired req
  = {| Http.statusCode := 200;
       Http.content :=
         Http.StatusBody "running"
           (match Supervisor.browser st with
            | Some _ => "connected"
            | None => "disconnected"
            end)
           (size (Supervisor.tabLastActivity st)) |}
  /\ Http.handler pathname cfg Supervisor.init acquired req
     = {| Http.statusCode := 200;
          Http.content := Http.StatusBody "running" "disconnected" 0 |}
  /\ Http.handler pathname cfg
       (Supervisor.run st (es ++ [Supervisor.Disconnected])) acquired req
     = {| Http.statusCode := 200;
          Http.content := Http.StatusBody "running" "disconnected" 0 |}.
Proof.
  intros Hurl Hauth Hpath.
  unfold Http.handler, Http.route. rewrite Hurl, Hauth, Hpath. simpl.
  split; [now destruct (Supervisor.browser st) |]. split; [reflexivity |].
  rewrite sup_run_app. reflexivity.
Qed.

Lemma status_reports_supervisor_witness :
  let cfg := {| AUTH_TOKEN := Some "secret"; PUBLIC_DOMAIN := None |} in
  let req := {| Http.req_url := Some "/status";
                Http.authorization := Some "Bearer secret" |} in
  let st := Supervisor.run Supervisor.init
              [Supervisor.Acquire; Supervisor.LaunchDone 0 (Some 1);
               Supervisor.TargetCreated Supervisor.PageTarget (Some "A") 1000
                 true] in
  Http.truthy (Http.req_url req) = true
  /\ Http.authorized cfg (Http.authorization req) = true
  /\ Some (Multiplexer.request_path (Http.req_url req)) = Some "/status"
  /\ (Http.handler Some cfg st None req
      = {| Http.statusCode := 200;
           Http.content :=
             Http.StatusBody "running"
               (match Supervisor.browser st with
            | Some _ => "connected"
            | None => "disconnected"
            end)
               (size (Supervisor.tabLastActivity st)) |}
      /\ Http.handler Some cfg Supervisor.init None req
         = {| Http.statusCode := 200;
              Http.content := Http.StatusBody "running" "disconnected" 0 |}
      /\ Http.handler Some cfg
           (Supervisor.run st ([] ++ [Supervisor.Disconnected])) None req
         = {| Http.statusCode := 200;
              Http.content := Http.StatusBody "running" "disconnected" 0 |}).
Proof.
  intros cfg req st.
  assert (H1 : Http.truthy (Http.req_url req) = true) by reflexivity.
  assert (H2 : Http.authorized cfg (Http.authorization req) = true)
    by reflexivity.
  assert (H3 : Some (Multiplexer.request_path (Http.req_url req))
               = Some "/status") by reflexivity.
  split; [exact H1 |]. split; [exact H2 |]. split; [exact H3 |].
  exact (status_reports_supervisor Some cfg None req st [] H1 H2 H3).
Defined.

(** ** More on the two sockets and on disconnects *)

Section ClientSideFacts.
Import Proxy.

(** Once the client socket is closing or closed it stays so and is sent
    nothing. *)
Lemma closing_client_socket (es : list event) (s : session) :
  closing (clientWs s) = true ->
  closing (clientWs (run s es)) = true
  /\ clientSent (run s es) = clientSent s.
Proof.
  revert s. induction es as [|e es IH]; intros s Hc; simpl; [auto |].
  assert (Hstep : closing (clientWs (step s e)) = true
                  /\ clientSent (step s e) = clientSent s).
  { destruct e as [f | f | | l | l | ].
    - simpl. unfold on_client_message.
      destruct (is_open (chromeWs s)); simpl; (split; [exact Hc | reflexivity]).
    - simpl. unfold on_chrome_message.
      destruct (clientWs s) eqn:Hw; try discriminate Hc; simpl;
        rewrite ?Hw; (split; [exact Hc | reflexivity]).
    - rewrite step_open_clientSent. split; [| reflexivity].
      destruct (chromeWs s) eqn:Hw;
        try (now rewrite step_open_not_connecting by congruence).
      destruct (step_open s Hw) as (H1 & _). now rewrite H1.
    - destruct s as [cw hw ? ? ? ? ? ? ?]. simpl in Hc.
      destruct l, cw, hw; try discriminate Hc; auto.
    - destruct s as [cw hw ? ? ? ? ? ? ?]. simpl in Hc.
      destruct l, cw, hw; try discriminate Hc; auto.
    - destruct s as [cw hw ? ? ? ? ? ? ?]. simpl in Hc.
      destruct cw, hw; try discriminate Hc; auto. }
  destruct Hstep as [H1 H2]. destruct (IH _ H1) as [I1 I2].
  now rewrite I1, I2, H2.
Qed.

End ClientSideFacts.

(** X18. Once the client socket is closing or closed, the frames of the
    internal socket are dropped: nothing is sent to the client any more,
    whatever events follow. *)
Theorem no_frame_after_client_close (before after : list Proxy.event) :
  Proxy.closing (Proxy.clientWs (Proxy.run Proxy.init before)) = true ->
  Proxy.clientSent (Proxy.run Proxy.init (before ++ after))
  = Proxy.clientSent (Proxy.run Proxy.init before).
Proof.
  intros Hc. rewrite run_app.
  now destruct (closing_client_socket after _ Hc) as [_ H].
Qed.

Lemma no_frame_after_client_close_witness :
  let r := {| Proxy.data := "{method:Target.targetCreated}";
              Proxy.isBinary := false |} in
  let before := [Proxy.ChromeOpen; Proxy.Close Proxy.Client] in
  let after := [Proxy.ChromeMessage r] in
  Proxy.closing (Proxy.clientWs (Proxy.run Proxy.init before)) = true
  /\ Proxy.clientSent (Proxy.run Proxy.init (before ++ after))
     = Proxy.clientSent (Proxy.run Proxy.init before).
Proof.
  intros r before after.
  assert (H : Proxy.closing (Proxy.clientWs (Proxy.run Proxy.init before)) = true)
    by reflexivity.
  split; [exact H | exact (no_frame_after_client_close before after H)].
Defined.

(** X19. The ['disconnected'] handler does not look at which browser it was
    attached to.  After a dead browser was replaced by a new one, a
    ['disconnected'] event still clears the reference and the registry, and
    the next call launches once more. *)
Theorem disconnect_after_replacement_relaunches
    (st : Supervisor.state) (old new : Supervisor.handle) :
  Supervisor.browser st = Some old ->
  let i := length (Supervisor.calls st) in
  let st' := Supervisor.run st
               [Supervisor.Acquire; Supervisor.ProbeDone i false;
                Supervisor.LaunchDone i (Some new);
                Supervisor.Disconnected; Supervisor.Acquire] in
  Supervisor.browser st' = None
  /\ Supervisor.tabLastActivity st' = ∅
  /\ Supervisor.launches st' = S (S (Supervisor.launches st))
  /\ Supervisor.calls st'
     = Supervisor.calls st
       ++ [Supervisor.Resolved (Some new); Supervisor.Launching].
Proof.
  intros Hb i st'. subst i st'.
  change [Supervisor.Acquire;
          Supervisor.ProbeDone (length (Supervisor.calls st)) false;
          Supervisor.LaunchDone (length (Supervisor.calls st)) (Some new);
          Supervisor.Disconnected; Supervisor.Acquire]
    with ([Supervisor.Acquire;
           Supervisor.ProbeDone (length (Supervisor.calls st)) false;
           Supervisor.LaunchDone (length (Supervisor.calls st)) (Some new)]
          ++ [Supervisor.Disconnected; Supervisor.Acquire]).
  rewrite sup_run_app.
  destruct (probe_failure_relaunch st old new Hb) as (_ & Hc & Hl & _).
  set (st1 := Supervisor.run st _) in *. clearbody st1.
  simpl. unfold Supervisor.launchBrowser_begin. simpl.
  rewrite Hc, Hl, <- app_assoc. repeat split.
Qed.

Lemma disconnect_after_replacement_relaunches_witness :
  let st := Supervisor.run Supervisor.init
              [Supervisor.Acquire; Supervisor.LaunchDone 0 (Some 1)] in
  let st' := Supervisor.run st
               [Supervisor.Acquire;
                Supervisor.ProbeDone (length (Supervisor.calls st)) false;
                Supervisor.LaunchDone (length (Supervisor.calls st)) (Some 2);
                Supervisor.Disconnected; Supervisor.Acquire] in
  Supervisor.browser st = Some 1
  /\ (Supervisor.browser st' = None
      /\ Supervisor.tabLastActivity st' = ∅
      /\ Supervisor.launches st' = S (S (Supervisor.launches st))
      /\ Supervisor.calls st'
         = Supervisor.calls st
           ++ [Supervisor.Resolved (Some 2); Supervisor.Launching]).
Proof.
  intros st st'. split; [reflexivity |].
  exact (disconnect_after_replacement_relaunches st 1 2 eq_refl).
Defined.

(** ** Ports the socket library refuses *)

(** X1. For a path made of a slash, a port number in decimal, a slash and a
    plain remainder: when the port is at most 65535 the handler constructs
    one internal WebSocket, to the loopback address on that port and with
    that remainder as path, with per-message deflate off, a handshake
    timeout of 5000 ms and a payload limit of 50 MiB, and does not close the
    client; when the port is above 65535 the constructor throws, no socket
    is constructed and the client is not closed either. *)
Theorem valid_path_opens_internal_socket (n : N) (rest : string) :
  Chars.all Chars.is_path_char rest = true ->
  ((n <= 65535)%N ->
   Multiplexer.on_connection (Some ("/" +:+ Url.decimal n +:+ "/" +:+ rest))
   = [Multiplexer.NewWS
        ("ws://127.0.0.1:" +:+ Url.decimal n +:+ "/" +:+ rest)
        {| Multiplexer.perMessageDeflate := false;
           Multiplexer.handshakeTimeout := 5000;
           Multiplexer.maxPayload := 52428800 |}])
  /\ ((65535 < n)%N ->
      Multiplexer.on_connection (Some ("/" +:+ Url.decimal n +:+ "/" +:+ rest))
      = [Multiplexer.WsThrows]).
Proof.
  intros Hrest. rewrite (on_connection_endpoint n rest Hrest). split; intros Hn.
  - now rewrite (ws_accepts_endpoint n rest Hn Hrest).
  - now rewrite (ws_rejects_large_port n rest Hn Hrest).
Qed.

Lemma valid_path_opens_internal_socket_witness :
  Chars.all Chars.is_path_char "devtools/page/abc" = true
  /\ (((99999 <= 65535)%N ->
       Multiplexer.on_connection
         (Some ("/" +:+ Url.decimal 99999 +:+ "/" +:+ "devtools/page/abc"))
       = [Multiplexer.NewWS
            ("ws://127.0.0.1:" +:+ Url.decimal 99999 +:+ "/"
             +:+ "devtools/page/abc")
            {| Multiplexer.perMessageDeflate := false;
               Multiplexer.handshakeTimeout := 5000;
               Multiplexer.maxPayload := 52428800 |}])
      /\ ((65535 < 99999)%N ->
          Multiplexer.on_connection
            (Some ("/" +:+ Url.decimal 99999 +:+ "/" +:+ "devtools/page/abc"))
          = [Multiplexer.WsThrows])).
Proof.
  assert (H : Chars.all Chars.is_path_char "devtools/page/abc" = true)
    by reflexivity.
  split; [exact H |].
  exact (valid_path_opens_internal_socket 99999 "devtools/page/abc" H).
Defined.

(** On sample paths: a port in range, a port out of range, a fragment. *)
Example connection_samples :
  Multiplexer.on_connection (Some "/9222/devtools/page/abc")
  = [Multiplexer.NewWS "ws://127.0.0.1:9222/devtools/page/abc"
       {| Multiplexer.perMessageDeflate := false;
          Multiplexer.handshakeTimeout := 5000;
          Multiplexer.maxPayload := 52428800 |}]
  /\ Multiplexer.on_connection (Some "/99999/devtools/page/abc")
     = [Multiplexer.WsThrows]
  /\ Multiplexer.on_connection (Some "/9222/devtools/page/abc#x")
     = [Multiplexer.WsThrows].
Proof. vm_compute. repeat split. Qed.

(** ** The request handler with its parser *)

Section RequestFacts.
Import Http.


End RequestFacts.




(** X15. A request that is not authorized is never served.  It is answered
    400 when it carries no URL and 401 when [url.parse] parses its target;
    when [url.parse] throws the handler writes no response.  Which of the
    three it is depends on the request alone, not on the state of the server
    or on the engine. *)
Theorem unauthorized_request_is_never_served
    (url_parse : string -> Http.parse_result) (cfg : config)
    (st st' : Supervisor.state) (acquired acquired' : option (string * string))
    (req : Http.request) :
  Http.authorized cfg (Http.authorization req) = false ->
  Http.on_request url_parse cfg st acquired req
  = Http.on_request url_parse cfg st' acquired' req
  /\ ((Http.truthy (Http.req_url req) = false
       /\ Http.on_request url_parse cfg st acquired req
          = Some {| Http.statusCode := 400;
                    Http.content := Http.ErrorBody "Invalid request" |})
      \/ (url_parse (Multiplexer.request_path (Http.req_url req)) = Http.Throws
          /\ Http.on_request url_parse cfg st acquired req = None)
      \/ ((exists p,
              url_parse (Multiplexer.request_path (Http.req_url req))
              = Http.Parsed p)
          /\ Http.on_request url_parse cfg st acquired req
             = Some {| Http.statusCode := 401;
                       Http.content := Http.ErrorBody "Unauthorized" |})).
Proof.
  intros Hauth. unfold Http.on_request, Http.handler. rewrite Hauth.
  destruct (Http.truthy (Http.req_url req)); simpl; [| auto].
  destruct (url_parse (Multiplexer.request_path (Http.req_url req))) as [|p];
    split; auto.
  right. right. split; [now exists p | reflexivity].
Qed.

Lemma unauthorized_request_is_never_served_witness :
  let cfg := {| AUTH_TOKEN := Some "secret"; PUBLIC_DOMAIN := None |} in
  let req := {| Http.req_url := Some "/browser";
                Http.authorization := Some "Bearer guess" |} in
  let st' := Supervisor.run Supervisor.init
               [Supervisor.Acquire; Supervisor.LaunchDone 0 (Some 1)] in
  let acquired' :=
    Some ("ws://127.0.0.1:9222/devtools/browser/abc", "Chrome/130") in
  Http.authorized cfg (Http.authorization req) = false
  /\ (Http.on_request Http.url_parse_sketch cfg Supervisor.init None req
      = Http.on_request Http.url_parse_sketch cfg st' acquired' req
      /\ ((Http.truthy (Http.req_url req) = false
           /\ Http.on_request Http.url_parse_sketch cfg Supervisor.init None req
              = Some {| Http.statusCode := 400;
                        Http.content := Http.ErrorBody "Invalid request" |})
          \/ (Http.url_parse_sketch
                (Multiplexer.request_path (Http.req_url req)) = Http.Throws
              /\ Http.on_request Http.url_parse_sketch cfg Supervisor.init None
                   req = None)
          \/ ((exists p,
                  Http.url_parse_sketch
                    (Multiplexer.request_path (Http.req_url req))
                  = Http.Parsed p)
              /\ Http.on_request Http.url_parse_sketch cfg Supervisor.init None
                   req
                 = Some {| Http.statusCode := 401;
                           Http.content := Http.ErrorBody "Unauthorized" |}))).
Proof.
  intros cfg req st' acquired'.
  assert (H : Http.authorized cfg (Http.authorization req) = false)
    by reflexivity.
  split; [exact H |].
  exact (unauthorized_request_is_never_served Http.url_parse_sketch cfg
           Supervisor.init st' None acquired' req H).
Defined.

(** ** Identifiers that do not recur *)

Section FreshSessionFacts.
Import Supervisor.

(** The loop closes nothing and leaves the registry alone when the registry
    has no entry under the identifier of any of the pages. *)
Lemma sweep_pages_unrecorded (now : Z) (n : nat) (pages : list page)
    (reg : gmap string Z) :
  (forall p k, p ∈ pages -> pg_session p = Some k -> reg !! k = None) ->
  sweep_pages now n reg pages = (reg, []).
Proof.
  induction pages as [|q rest IH]; intros Hnone; [reflexivity |].
  simpl.
  assert (Hq : sweep_page now n reg q = (reg, false)).
  { destruct (pg_session q) as [k|] eqn:Hs.
    - rewrite (sweep_page_session now n reg q k Hs).
      rewrite (Hnone q k (list_elem_of_here q rest) Hs).
      unfold closes_page, idle. now rewrite andb_false_r.
    - unfold sweep_page. now rewrite Hs. }
  rewrite Hq, IH; [reflexivity |].
  intros p k Hp. apply Hnone. now right.
Qed.

Lemma state_eta (st : state) : set_registry (tabLastActivity st) st = st.
Proof. now destruct st. Qed.

(** With sessions that are new at every sweep, a sweep closes no page and
    changes nothing. *)
Lemma fresh_sweep_closes_nothing (es : list event) (now : Z)
    (pages : list page) :
  fresh_sessions es pages ->
  cleanupInactiveTabs now pages (run init es) = (run init es, []).
Proof.
  intros Hfresh. unfold cleanupInactiveTabs.
  destruct (browser (run init es)); [| reflexivity].
  rewrite sweep_pages_unrecorded; [now rewrite state_eta |].
  intros p k Hp Hk. apply not_elem_of_dom. intros Hdom.
  apply (Hfresh p k Hp Hk).
  destruct (keys_run es init ∅) as [Hd _].
  - simpl. rewrite dom_empty_L. set_solver.
  - simpl. set_solver.
  - set_solver.
Qed.

End FreshSessionFacts.

(** C6, the code against the claim. The reaper looks a page up under the
    identifier of a session it creates for that sweep, while the entry of
    the page is under the identifier of the session created when the target
    was created.  With identifiers that do not recur, a page registered at
    any time [t] is not closed by a sweep at any later time, however far
    beyond the threshold, and its entry stays: the sweep closes no page. *)
Theorem idle_page_is_never_reaped
    (es : list Supervisor.event) (created : string) (t now : Z)
    (has_page : bool) (pages : list Supervisor.page) :
  let history :=
    es ++ [Supervisor.TargetCreated Supervisor.PageTarget (Some created) t
             has_page] in
  Supervisor.fresh_sessions history pages ->
  let st := Supervisor.run Supervisor.init history in
  Supervisor.tabLastActivity st !! created = Some t
  /\ snd (Supervisor.cleanupInactiveTabs now pages st) = []
  /\ Supervisor.tabLastActivity
       (fst (Supervisor.cleanupInactiveTabs now pages st)) !! created
     = Some t.
Proof.
  intros history Hfresh st. subst st.
  rewrite (fresh_sweep_closes_nothing history now pages Hfresh). simpl.
  assert (Ht : Supervisor.tabLastActivity
                 (Supervisor.run Supervisor.init history) !! created = Some t).
  { subst history. rewrite sup_run_app. simpl. apply lookup_insert_eq. }
  auto.
Qed.

Lemma idle_page_is_never_reaped_witness :
  let es := [Supervisor.Acquire; Supervisor.LaunchDone 0 (Some 1)] in
  let history :=
    es ++ [Supervisor.TargetCreated Supervisor.PageTarget (Some "S1") 1000
             true] in
  let pages := [{| Supervisor.pg_session := Some "S2";
                   Supervisor.pg_url := "https://example.com/";
                   Supervisor.pg_close_ok := true |}] in
  let st := Supervisor.run Supervisor.init history in
  Supervisor.fresh_sessions history pages
  /\ (Supervisor.tabLastActivity st !! "S1" = Some 1000%Z
      /\ snd (Supervisor.cleanupInactiveTabs 400000 pages st) = []
      /\ Supervisor.tabLastActivity
           (fst (Supervisor.cleanupInactiveTabs 400000 pages st)) !! "S1"
         = Some 1000%Z).
Proof.
  intros es history pages st.
  assert (H : Supervisor.fresh_sessions history pages).
  { intros p k Hp Hk. apply elem_of_cons in Hp as [-> | Hp].
    - injection Hk as <-. vm_compute. set_solver.
    - now apply elem_of_nil in Hp. }
  split; [exact H |].
  exact (idle_page_is_never_reaped es "S1" 1000 400000 true pages H).
Defined.



(** C8, the code against the claim. A target-created event of kind page
    puts an entry under the identifier of the session the handler creates.
    The target-destroyed handler creates a session of its own: when that
    fails, or gives another identifier, the entry is still there after it. *)
Theorem destroyed_tab_keeps_its_entry
    (st : Supervisor.state) (created : string) (now : Z) (has_page : bool)
    (at_destroy : option string) :
  at_destroy <> Some created ->
  Supervisor.tabLastActivity
    (Supervisor.run st
       [Supervisor.TargetCreated Supervisor.PageTarget (Some created) now
          has_page;
        Supervisor.TargetDestroyed Supervisor.PageTarget at_destroy])
    !! created
  = Some now.
Proof.
  intros Hne. simpl. destruct at_destroy as [k|]; simpl.
  - rewrite lookup_delete_ne by congruence. apply lookup_insert_eq.
  - apply lookup_insert_eq.
Qed.

Lemma destroyed_tab_keeps_its_entry_witness :
  Some "S2" <> Some "S1"
  /\ Supervisor.tabLastActivity
       (Supervisor.run Supervisor.init
          [Supervisor.TargetCreated Supervisor.PageTarget (Some "S1") 1000
             true;
           Supervisor.TargetDestroyed Supervisor.PageTarget (Some "S2")])
       !! "S1"
     = Some 1000%Z.
Proof.
  assert (H : Some "S2" <> Some "S1") by discriminate.
  split; [exact H |].
  exact (destroyed_tab_keeps_its_entry Supervisor.init "S1" 1000 true
           (Some "S2") H).
Defined.
